(** * Liveness and self-healing monitors of the interval server

    A shallow embedding of the periodic monitors of the WebSocket server
    ([connectionMonitor.ts], [hostStatusCheck], [autoReconnect.ts],
    [serverHealth.ts]) and the properties their specification states.

    Conventions.
    - Times are milliseconds since the epoch, as [Date.now()] and
      [Date.prototype.getTime()] give them, modelled as [Z].
    - The counters are JavaScript numbers that only ever hold integers and
      are only ever incremented by one from [0]; they are exact below 2^53,
      which no run reaches, and are modelled as [Z].
    - What a function hands to [logger] is returned as a list of log
      records; the lines that only announce that a run starts are left out.
    - A database call may throw.  Each function below returns, or leaves
      its [try] block, at the first of its database calls that throws, so
      the faults of one run of a function are given by [fault : option nat]:
      the index (from 0) of the first database call of that run that throws,
      [None] when every call succeeds.
    - The monitors run on one thread; a run is modelled without other
      writers of the table or the registry in between its steps. *)

From stdpp Require Import gmap strings list fin_maps.

Local Open Scope Z_scope.
#[local] Set Warnings "-clear-no-such-hyp".

(** ** connectionMonitor.ts *)

Module ConnectionMonitor.

(** ['host' | 'client'] *)
Inductive ConnectionType := host | client.

#[export] Instance ConnectionType_eq_dec : EqDecision ConnectionType.
Proof. solve_decision. Defined.

(** [interface PingFailure] *)
Record PingFailure := mkPingFailure {
  instanceId : string;
  type : ConnectionType;
  organizationId : option string;
  userId : option string;
  failureCount : Z;
  firstFailureTime : Z;
  lastFailureTime : Z
}.

(** A JavaScript [Map<string, PingFailure>]: it iterates in insertion
    order, which the flush pass shows in the order of the entries it
    reports, so the map is a list of bindings in insertion order. *)
Definition PingFailureMap := list (string * PingFailure).

(** [Map.prototype.get] *)
Fixpoint map_get (k : string) (m : PingFailureMap) : option PingFailure :=
  match m with
  | [] => None
  | (k', v) :: m' => if bool_decide (k' = k) then Some v else map_get k m'
  end.

(** [Map.prototype.set]: an existing key keeps its place, a new key goes
    last.  Writing a field of the object [get] returned is a [set] of the
    changed object at the same key. *)
Fixpoint map_set (k : string) (v : PingFailure) (m : PingFailureMap)
  : PingFailureMap :=
  match m with
  | [] => [(k, v)]
  | (k', v') :: m' =>
      if bool_decide (k' = k) then (k, v) :: m' else (k', v') :: map_set k v m'
  end.

(** [Map.prototype.delete] *)
Fixpoint map_delete (k : string) (m : PingFailureMap) : PingFailureMap :=
  match m with
  | [] => []
  | (k', v') :: m' =>
      if bool_decide (k' = k) then map_delete k m' else (k', v') :: map_delete k m'
  end.

(** [Map.prototype.values] *)
Definition map_values (m : PingFailureMap) : list PingFailure := m.*2.

(** The records the module hands to [logger]. *)
Inductive LogRecord :=
| PingFailureStatistics (totalFailures hostFailures clientFailures : Z)
| CriticalPingFailures (failures : list PingFailure)
| ConnectionStatistics (created closed active : Z).

(** The module-level variables.  The live registry sizes that the hourly
    report also prints are read from [processVars] and are no state of
    this module. *)
Record State := mkState {
  totalConnectionsCreated : Z;
  totalConnectionsClosed : Z;
  totalHostConnections : Z;
  totalClientConnections : Z;
  lastConnectionStatsLogged : Z;
  pingFailures : PingFailureMap;
  lastPingFailureLogTime : Z
}.

(** The module as loaded at time [t0]. *)
Definition initial (t0 : Z) : State :=
  mkState 0 0 0 0 t0 [] t0.

Definition incrementConnectionCreated (ty : ConnectionType) (s : State) : State :=
  let created := totalConnectionsCreated s + 1 in
  match ty with
  | host =>
      mkState created (totalConnectionsClosed s)
        (totalHostConnections s + 1) (totalClientConnections s)
        (lastConnectionStatsLogged s) (pingFailures s) (lastPingFailureLogTime s)
  | client =>
      mkState created (totalConnectionsClosed s)
        (totalHostConnections s) (totalClientConnections s + 1)
        (lastConnectionStatsLogged s) (pingFailures s) (lastPingFailureLogTime s)
  end.

Definition incrementConnectionClosed (ty : ConnectionType) (s : State) : State :=
  mkState (totalConnectionsCreated s) (totalConnectionsClosed s + 1)
    (totalHostConnections s) (totalClientConnections s)
    (lastConnectionStatsLogged s) (pingFailures s) (lastPingFailureLogTime s).

(** The accumulators of the loop of [logPingFailures]:
    [failuresByType.host], [failuresByType.client], [criticalFailures]. *)
Record FlushAcc := mkFlushAcc {
  byHost : Z;
  byClient : Z;
  criticalFailures : list PingFailure
}.

(** One iteration of [for (const failure of pingFailures.values())]. *)
Definition flush_step (acc : FlushAcc) (failure : PingFailure) : FlushAcc :=
  let h := match type failure with host => byHost acc + 1 | client => byHost acc end in
  let c := match type failure with host => byClient acc | client => byClient acc + 1 end in
  mkFlushAcc h c
    (if bool_decide (failureCount failure > 3)
     then criticalFailures acc ++ [failure]
     else criticalFailures acc).

Definition flush_pass (m : PingFailureMap) : FlushAcc :=
  fold_left flush_step (map_values m) (mkFlushAcc 0 0 []).

Definition logPingFailures (m : PingFailureMap) : list LogRecord :=
  if bool_decide (length m = 0%nat) then []
  else
    let acc := flush_pass m in
    PingFailureStatistics (Z.of_nat (length m)) (byHost acc) (byClient acc)
    :: (if bool_decide (0 < length (criticalFailures acc))%nat
        then [CriticalPingFailures (criticalFailures acc)]
        else []).

Definition PING_FAILURE_LOG_INTERVAL : Z := 5 * 60 * 1000.
Definition CONNECTION_STATS_LOG_INTERVAL : Z := 60 * 60 * 1000.

(** [recordPingFailure]; [now] is what [new Date()] reads at its start and
    [currentTime] what [Date.now()] reads after the map is written. *)
Definition recordPingFailure (id : string) (ty : ConnectionType)
    (org usr : option string) (now currentTime : Z) (s : State)
  : State * list LogRecord :=
  let failures :=
    match map_get id (pingFailures s) with
    | Some existing =>
        map_set id
          (mkPingFailure (instanceId existing) (type existing)
             (organizationId existing) (userId existing)
             (failureCount existing + 1) (firstFailureTime existing) now)
          (pingFailures s)
    | None =>
        map_set id (mkPingFailure id ty org usr 1 now now) (pingFailures s)
    end in
  let due := bool_decide (currentTime - lastPingFailureLogTime s > PING_FAILURE_LOG_INTERVAL) in
  (mkState (totalConnectionsCreated s) (totalConnectionsClosed s)
     (totalHostConnections s) (totalClientConnections s)
     (lastConnectionStatsLogged s) failures
     (if due then currentTime else lastPingFailureLogTime s),
   if due then logPingFailures failures else []).

Definition clearPingFailure (id : string) (s : State) : State :=
  mkState (totalConnectionsCreated s) (totalConnectionsClosed s)
    (totalHostConnections s) (totalClientConnections s)
    (lastConnectionStatsLogged s) (map_delete id (pingFailures s))
    (lastPingFailureLogTime s).

(** The hourly callback [startConnectionMonitoring] installs. *)
Definition logConnectionStats (now : Z) (s : State) : State * list LogRecord :=
  (mkState (totalConnectionsCreated s) (totalConnectionsClosed s)
     (totalHostConnections s) (totalClientConnections s)
     now (pingFailures s) (lastPingFailureLogTime s),
   [ConnectionStatistics (totalConnectionsCreated s) (totalConnectionsClosed s)
      (totalConnectionsCreated s - totalConnectionsClosed s)]).

(** Every way the module's variables are written: its exported functions
    and its timer callback. *)
Inductive Op :=
| OpConnectionCreated (ty : ConnectionType)
| OpConnectionClosed (ty : ConnectionType)
| OpRecordPingFailure (id : string) (ty : ConnectionType)
    (org usr : option string) (now currentTime : Z)
| OpClearPingFailure (id : string)
| OpLogConnectionStats (now : Z).

#[export] Instance Op_eq_dec : EqDecision Op.
Proof. solve_decision. Defined.

Definition step (o : Op) (s : State) : State :=
  match o with
  | OpConnectionCreated ty => incrementConnectionCreated ty s
  | OpConnectionClosed ty => incrementConnectionClosed ty s
  | OpRecordPingFailure id ty org usr now cur =>
      (recordPingFailure id ty org usr now cur s).1
  | OpClearPingFailure id => clearPingFailure id s
  | OpLogConnectionStats now => (logConnectionStats now s).1
  end.

Definition run (ops : list Op) (s : State) : State :=
  fold_left (fun s o => step o s) ops s.

(** The number of connections of kind [ty] that [ops] reports created. *)
Definition created_of (ty : ConnectionType) (ops : list Op) : nat :=
  length (filter (fun o => match o with
                           | OpConnectionCreated ty' => bool_decide (ty' = ty)
                           | _ => false
                           end = true) ops).

(** The entries the flush pass reports as critical, as the specification
    words them: those with more than 3 failures, in the order of the map. *)
Definition critical_entries (m : PingFailureMap) : list PingFailure :=
  filter (fun f => failureCount f > 3) (map_values m).

End ConnectionMonitor.

(** ** The persisted host records

    The [HostInstance] table behind [prisma.hostInstance], keyed by its
    primary key [id], with the columns the monitors read and write. *)

Module Store.

(** Modelled from the spec: the status enumeration of the Prisma schema,
    which is not among the sources.  "status ∈ {ONLINE, UNREACHABLE,
    OFFLINE}"; these are also the only three status literals of the
    sources. *)
Inductive HostInstanceStatus := ONLINE | UNREACHABLE | OFFLINE.

#[export] Instance HostInstanceStatus_eq_dec : EqDecision HostInstanceStatus.
Proof. solve_decision. Defined.

Record HostInstance := mkHostInstance {
  organizationId : string;
  apiKeyId : string;
  status : HostInstanceStatus;
  updatedAt : Z
}.

#[export] Instance HostInstance_eq_dec : EqDecision HostInstance.
Proof. solve_decision. Defined.

Abbreviation Table := (gmap string HostInstance).

(** A row as a query returns it: the [id] and the other columns. *)
Abbreviation Row := (string * HostInstance)%type.

Definition set_status (s : HostInstanceStatus) (h : HostInstance) : HostInstance :=
  mkHostInstance (organizationId h) (apiKeyId h) s (updatedAt h).

(** The outcome of database call number [n] of a run whose first throwing
    call is [fault]: [None] stands for the exception. *)
Definition db_call {A : Type} (fault : option nat) (n : nat) (r : option A)
  : option A :=
  if bool_decide (fault = Some n) then None else r.

(** [findMany({ where: { status } })] *)
Definition findMany (s : HostInstanceStatus) (db : Table) : list Row :=
  filter (fun r : Row => status r.2 = s) (map_to_list db).

(** [SELECT status, COUNT( * ) FROM "HostInstance" GROUP BY status]: one
    row per status that has records.  The query fixes no order of its rows;
    they are listed here in one order, on which nothing below depends. *)
Definition statusCounts (db : Table) : list (HostInstanceStatus * nat) :=
  filter (fun c : HostInstanceStatus * nat => (0 < c.2)%nat)
    ((fun s => (s, length (findMany s db))) <$> [ONLINE; UNREACHABLE; OFFLINE]).

Section PrismaClient.

(** The Prisma schema is not among the sources.  Whether it declares the
    column [updatedAt] as [@updatedAt], so that a write through the
    Prisma client stamps it, is left open: [touch] is what such a write
    makes of the column (the identity when it is a plain column). *)
Variable touch : Z -> Z.

Definition client_write (s : HostInstanceStatus) (h : HostInstance) : HostInstance :=
  mkHostInstance (organizationId h) (apiKeyId h) s (touch (updatedAt h)).

(** [delete({ where: { id } })]; throws when there is no such record. *)
Definition prisma_delete (id : string) (db : Table) : option Table :=
  match db !! id with
  | Some _ => Some (delete id db)
  | None => None
  end.

(** [update({ where: { id }, data: { status } })]; throws when there is
    no such record. *)
Definition prisma_update (id : string) (s : HostInstanceStatus) (db : Table)
  : option Table :=
  match db !! id with
  | Some h => Some (<[id := client_write s h]> db)
  | None => None
  end.

(** [updateMany({ where: { status: from }, data: { status: to } })] *)
Definition prisma_updateMany (from to : HostInstanceStatus) (db : Table) : Table :=
  (fun h => if decide (status h = from) then client_write to h else h) <$> db.

End PrismaClient.

Definition LIVENESS_TIMEOUT : Z := 60 * 1000.        (* '00:01:00'::interval *)
Definition RETENTION_WINDOW : Z := 6 * 60 * 60 * 1000. (* '06:00:00'::interval *)

(** [where status = 'ONLINE' and "updatedAt" < (now() - '00:01:00'::interval)];
    [now] is the database's [now()]. *)
Definition stale_online (now : Z) (h : HostInstance) : Prop :=
  status h = ONLINE /\ updatedAt h < now - LIVENESS_TIMEOUT.

(** [where status in ('UNREACHABLE', 'OFFLINE')
     and "updatedAt" < (now() - '06:00:00'::interval)] *)
Definition old_terminal (now : Z) (h : HostInstance) : Prop :=
  (status h = UNREACHABLE \/ status h = OFFLINE)
  /\ updatedAt h < now - RETENTION_WINDOW.

#[export] Instance stale_online_dec now h : Decision (stale_online now h).
Proof. unfold stale_online. apply _. Defined.

#[export] Instance old_terminal_dec now h : Decision (old_terminal now h).
Proof. unfold old_terminal. apply _. Defined.

(** [RETURNING id, "organizationId"] *)
Definition returning (rows : list Row) : list (string * string) :=
  (fun r : Row => (r.1, organizationId r.2)) <$> rows.

(** The raw [update "HostInstance" set status = 'UNREACHABLE' where ...
    RETURNING ...]: it sets the one column it names. *)
Definition sql_mark_unreachable (now : Z) (db : Table)
  : Table * list (string * string) :=
  ((fun h => if decide (stale_online now h) then set_status UNREACHABLE h else h) <$> db,
   returning (filter (fun r : Row => stale_online now r.2) (map_to_list db))).

(** The raw [delete from "HostInstance" where ... RETURNING ...]. *)
Definition sql_delete_old (now : Z) (db : Table)
  : Table * list (string * string) :=
  (filter (fun r : Row => ~ old_terminal now r.2) db,
   returning (filter (fun r : Row => old_terminal now r.2) (map_to_list db))).

End Store.

(** ** hostStatusCheck: the liveness sweep *)

Module HostStatusCheck.
Import Store.

Inductive LogRecord :=
| HostsMarkedUnreachable (hosts : list (string * string))
    (beforeCounts afterCounts : list (HostInstanceStatus * nat))
| OldHostInstancesDeleted (count : nat)
| FailedChecking.

(** What one run of [checkForUnreachableHosts] leaves behind: the table,
    the rows its two statements returned ([[]] for a statement that did
    not run) and what it logged. *)
Record Sweep := mkSweep {
  table_after : Table;
  updateResult : list (string * string);
  deleteResult : list (string * string);
  logged : list LogRecord
}.

(** [checkForUnreachableHosts].  Its database calls are, in order: the
    count before, the update, the count after, the delete.  [t_update] and
    [t_delete] are the database's [now()] in the update and in the delete
    statement. *)
Definition checkForUnreachableHosts (fault : option nat) (t_update t_delete : Z)
    (db : Table) : Sweep :=
  match db_call fault 0 (Some (statusCounts db)) with
  | None => mkSweep db [] [] [FailedChecking]
  | Some beforeCounts =>
  match db_call fault 1 (Some (sql_mark_unreachable t_update db)) with
  | None => mkSweep db [] [] [FailedChecking]
  | Some (db1, marked) =>
  match db_call fault 2 (Some (statusCounts db1)) with
  | None => mkSweep db1 marked [] [FailedChecking]
  | Some afterCounts =>
  let log1 :=
    if bool_decide (0 < length marked)%nat
    then [HostsMarkedUnreachable marked beforeCounts afterCounts] else [] in
  match db_call fault 3 (Some (sql_delete_old t_delete db1)) with
  | None => mkSweep db1 marked [] (log1 ++ [FailedChecking])
  | Some (db2, deleted) =>
      mkSweep db2 marked deleted
        (log1 ++ if bool_decide (0 < length deleted)%nat
                 then [OldHostInstancesDeleted (length deleted)] else [])
  end end end end.

End HostStatusCheck.

(** ** processVars: the live connection registry

    [connectedHosts] is a [Map] from identifier to connection handle.  The
    module itself is not among the sources; of a handle the monitors read
    [apiKeyId] and [ws.id], which is what the record below holds. *)

Module ProcessVars.

Record ConnectedHost := mkConnectedHost {
  apiKeyId : string;
  ws_id : string
}.

Abbreviation Registry := (gmap string ConnectedHost).

(** [Array.from(connectedHosts.values())] *)
Definition values (connectedHosts : Registry) : list ConnectedHost :=
  (map_to_list connectedHosts).*2.

(** [Array.from(connectedHosts.keys())] *)
Definition keys (connectedHosts : Registry) : list string :=
  (map_to_list connectedHosts).*1.

End ProcessVars.

(** ** autoReconnect.ts: the reconnect reconciler *)

Module AutoReconnect.
Import Store ProcessVars.

Definition AUTO_RECONNECT_CHECK_INTERVAL : Z := 15 * 60 * 1000.
Definition HOST_UNREACHABLE_THRESHOLD : Z := 30 * 60 * 1000.

(** An element of [hostsToReset]. *)
Record HostToReset := mkHostToReset {
  reset_id : string;
  reset_organizationId : string;
  reset_apiKeyId : string;
  timeSinceUpdateMs : Z;
  lastUpdated : Z
}.

Inductive LogRecord :=
| FoundUnreachableHosts (count : nat)
| CleaningUpOldHost (hostId apiKey organization : string)
| ResetUnreachableHosts (hosts : list HostToReset)
| ErrorChecking.

(** [Array.from(connectedHosts.values()).some(connectedHost =>
      connectedHost.apiKeyId === host.apiKeyId && connectedHost.ws.id !== host.id)] *)
Definition apiKeyHasNewConnection (connectedHosts : Registry) (host : Row) : bool :=
  existsb
    (fun connectedHost =>
       bool_decide (ProcessVars.apiKeyId connectedHost = Store.apiKeyId host.2)
       && negb (bool_decide (ws_id connectedHost = host.1)))
    (values connectedHosts).

(** A record is superseded, as the specification words it: some live
    connection has the same API-key reference and a different identifier. *)
Definition superseded (connectedHosts : Registry) (id : string) (h : HostInstance)
  : Prop :=
  exists k c, connectedHosts !! k = Some c
              /\ ProcessVars.apiKeyId c = Store.apiKeyId h /\ ws_id c ≠ id.

(** The state of the [for] loop: the table, the number of database calls
    made so far, [hostsToReset] and the log. *)
Record LoopState := mkLoopState {
  loop_db : Table;
  loop_calls : nat;
  hostsToReset : list HostToReset;
  loop_log : list LogRecord
}.

Section Reconciler.
Variable touch : Z -> Z.
Variable fault : option nat.
Variable now : Z.
Variable connectedHosts : Registry.

(** The loop over [unreachableHosts]; [inl] when a database call threw,
    with the state the exception left. *)
Fixpoint reset_loop (hosts : list Row) (st : LoopState)
  : LoopState + LoopState :=
  match hosts with
  | [] => inr st
  | host :: rest =>
      let timeSinceUpdate := now - updatedAt host.2 in
      if bool_decide (timeSinceUpdate > HOST_UNREACHABLE_THRESHOLD) then
        let pushed :=
          hostsToReset st ++
          [mkHostToReset host.1 (organizationId host.2) (Store.apiKeyId host.2)
             timeSinceUpdate (updatedAt host.2)] in
        if apiKeyHasNewConnection connectedHosts host then
          let log :=
            loop_log st ++
            [CleaningUpOldHost host.1 (Store.apiKeyId host.2) (organizationId host.2)] in
          match db_call fault (loop_calls st) (prisma_delete host.1 (loop_db st)) with
          | Some db' => reset_loop rest (mkLoopState db' (S (loop_calls st)) pushed log)
          | None => inl (mkLoopState (loop_db st) (loop_calls st) pushed log)
          end
        else
          match db_call fault (loop_calls st)
                  (prisma_update touch host.1 OFFLINE (loop_db st)) with
          | Some db' =>
              reset_loop rest (mkLoopState db' (S (loop_calls st)) pushed (loop_log st))
          | None => inl (mkLoopState (loop_db st) (loop_calls st) pushed (loop_log st))
          end
      else reset_loop rest st
  end.

(** What the loop body makes of the record of one row: [None] when it
    deletes it. *)
Definition resolved (host : Row) : option HostInstance :=
  if bool_decide (now - updatedAt host.2 > HOST_UNREACHABLE_THRESHOLD) then
    if apiKeyHasNewConnection connectedHosts host then None
    else Some (client_write touch OFFLINE host.2)
  else Some host.2.

(** [checkForUnreachableHostsToReset]: the table it leaves and its log. *)
Definition checkForUnreachableHostsToReset (db : Table) : Table * list LogRecord :=
  match db_call fault 0 (Some (findMany UNREACHABLE db)) with
  | None => (db, [ErrorChecking])
  | Some unreachableHosts =>
      if bool_decide (length unreachableHosts = 0%nat) then (db, [])
      else
        match reset_loop unreachableHosts
                (mkLoopState db 1 [] [FoundUnreachableHosts (length unreachableHosts)]) with
        | inl st => (loop_db st, loop_log st ++ [ErrorChecking])
        | inr st =>
            (loop_db st,
             loop_log st ++
             if bool_decide (0 < length (hostsToReset st))%nat
             then [ResetUnreachableHosts (hostsToReset st)] else [])
        end
  end.

End Reconciler.

End AutoReconnect.

(** ** serverHealth.ts: the server health monitor *)

Module ServerHealth.
Import Store ProcessVars.

Definition HEALTH_CHECK_INTERVAL : Z := 5 * 60 * 1000.
Definition RESTART_THRESHOLD : Z := 3.
Definition RESTART_COOLDOWN : Z := 60 * 60 * 1000.

(** The module-level variables. *)
Record HealthCheckState := mkHealthCheckState {
  healthCheckFailures : Z;
  lastRestartTime : Z;
  isServerHealthy : bool
}.

Definition initial : HealthCheckState := mkHealthCheckState 0 0 true.

(** What the monitor does to the outside besides writing the table: its
    log records and the timer it arms, [setTimeout(() => process.exit(code),
    delay)]. *)
Inductive Effect :=
| LogDatabaseCheckFailed
| LogInconsistency (databaseHostInstancesCount connectedHostsCount : nat)
| LogDisconnectedHosts (hostIds : list string)
| LogCheckError
| LogInCooldown (minutesSinceLastRestart : Z)
| LogInitiatingRestart (consecutiveFailures : Z)
| LogExiting
| LogPrepareFailed
| LogInitialCheckFailed
| LogHealthRestored (previousFailures : Z)
| LogCheckFailed (consecutiveFailures : Z)
| ExitAfter (delay code : Z).

#[export] Instance Effect_eq_dec : EqDecision Effect.
Proof. solve_decision. Defined.

(** [hostInstances.filter(host => host.status === 'ONLINE' &&
      !connectedHostIds.includes(host.id))] *)
Definition disconnectedHosts (connectedHosts : Registry) (hostInstances : list Row)
  : list Row :=
  let connectedHostIds := keys connectedHosts in
  filter (fun host : Row => status host.2 = ONLINE /\ host.1 ∉ connectedHostIds)
    hostInstances.

(** [checkServerHealth].  Its database calls are the probe [SELECT 1] and
    the [findMany] of the ONLINE records; [failures] is
    [healthCheckFailures] as the check reads it. *)
Definition checkServerHealth (fault : option nat) (db : Table)
    (connectedHosts : Registry) (failures : Z) : bool * list Effect :=
  match db_call fault 0 (Some tt) with
  | None => (false, [LogDatabaseCheckFailed])
  | Some _ =>
  match db_call fault 1 (Some (findMany ONLINE db)) with
  | None => (false, [LogCheckError])
  | Some hostInstances =>
      let inconsistent :=
        bool_decide (0 < length hostInstances)%nat
        && bool_decide (size connectedHosts = 0%nat) in
      let log1 :=
        if inconsistent
        then [LogInconsistency (length hostInstances) (size connectedHosts)]
        else [] in
      if inconsistent && bool_decide (failures > 0) then (false, log1)
      else
        let disconnected := disconnectedHosts connectedHosts hostInstances in
        let log2 :=
          if bool_decide (0 < length disconnected)%nat
          then [LogDisconnectedHosts disconnected.*1] else [] in
        if bool_decide (3 < length disconnected)%nat
        then (false, log1 ++ log2)
        else (true, log1 ++ log2)
  end end.

(** What surrounds one check: the clock, the table and the registry at that
    time, and the faults of the database calls of the check and of the
    restart handler. *)
Record CycleInput := mkCycleInput {
  now : Z;
  table : Table;
  connectedHosts : Registry;
  checkFault : option nat;
  restartFault : option nat
}.

Section Monitor.
Variable touch : Z -> Z.

(** [handleUnhealthyServer]; its one database call is the [updateMany]. *)
Definition handleUnhealthyServer (fault : option nat) (now : Z) (db : Table)
    (st : HealthCheckState) : Table * HealthCheckState * list Effect :=
  if bool_decide (now - lastRestartTime st < RESTART_COOLDOWN) then
    (db, st, [LogInCooldown ((now - lastRestartTime st) `div` 60000)])
  else
    match db_call fault 0 (Some (prisma_updateMany touch ONLINE UNREACHABLE db)) with
    | Some db' =>
        (db',
         mkHealthCheckState (healthCheckFailures st) now (isServerHealthy st),
         [LogInitiatingRestart (healthCheckFailures st); LogExiting; ExitAfter 1000 1])
    | None =>
        (db, st, [LogInitiatingRestart (healthCheckFailures st); LogPrepareFailed])
    end.

(** The callback of [checkServerHealth().then(...)], the initial check. *)
Definition initialCheck (i : CycleInput) (st : HealthCheckState)
  : bool * HealthCheckState * list Effect :=
  let '(isHealthy, log) :=
    checkServerHealth (checkFault i) (table i) (connectedHosts i)
      (healthCheckFailures st) in
  if isHealthy then
    (isHealthy, mkHealthCheckState (healthCheckFailures st) (lastRestartTime st) true, log)
  else
    (isHealthy,
     mkHealthCheckState (healthCheckFailures st + 1) (lastRestartTime st) false,
     log ++ [LogInitialCheckFailed]).

(** What one periodic check leaves behind. *)
Record Cycle := mkCycle {
  healthy : bool;
  table_after : Table;
  state_after : HealthCheckState;
  effects : list Effect
}.

(** The callback of [setInterval], one periodic check. *)
Definition healthCheckCycle (i : CycleInput) (st : HealthCheckState) : Cycle :=
  let '(isHealthy, log) :=
    checkServerHealth (checkFault i) (table i) (connectedHosts i)
      (healthCheckFailures st) in
  if isHealthy then
    if bool_decide (healthCheckFailures st > 0) then
      mkCycle true (table i)
        (mkHealthCheckState 0 (lastRestartTime st) true)
        (log ++ [LogHealthRestored (healthCheckFailures st)])
    else
      mkCycle true (table i)
        (mkHealthCheckState (healthCheckFailures st) (lastRestartTime st) true) log
  else
    let st1 :=
      mkHealthCheckState (healthCheckFailures st + 1) (lastRestartTime st) false in
    let log1 := log ++ [LogCheckFailed (healthCheckFailures st1)] in
    if bool_decide (healthCheckFailures st1 >= RESTART_THRESHOLD) then
      let '(db', st2, log2) :=
        handleUnhealthyServer (restartFault i) (now i) (table i) st1 in
      mkCycle false db' st2 (log1 ++ log2)
    else mkCycle false (table i) st1 log1.

(** The cycle called [handleUnhealthyServer]. *)
Definition reached_handler (c : Cycle) : Prop :=
  exists n, LogInCooldown n ∈ effects c \/ LogInitiatingRestart n ∈ effects c.

(** The cycle attempted the escalation: the handler went past its
    cooldown gate. *)
Definition escalated (c : Cycle) : Prop :=
  exists n, LogInitiatingRestart n ∈ effects c.

(** [setTimeout(() => process.exit(...), ...)] *)
Definition is_exit (e : Effect) : bool :=
  match e with ExitAfter _ _ => true | _ => false end.

(** The cycle armed the timer that ends the process. *)
Definition exits (c : Cycle) : bool := existsb is_exit (effects c).

(** The periodic checks in their order, and the state they leave.  The
    process ends one second after a cycle arms the exit timer, well
    before the next check is due, so no check follows such a cycle. *)
Fixpoint monitor (cycles : list CycleInput) (st : HealthCheckState)
  : list Cycle * HealthCheckState :=
  match cycles with
  | [] => ([], st)
  | i :: rest =>
      let c := healthCheckCycle i st in
      if exits c then ([c], state_after c)
      else
        let '(cs, st') := monitor rest (state_after c) in
        (c :: cs, st')
  end.

(** [startServerHealthMonitoring]: the initial check, then the periodic
    ones.  The results of all the checks in their order, the periodic
    cycles and the state at the end. *)
Definition startServerHealthMonitoring (first : CycleInput)
    (cycles : list CycleInput) : list bool * list Cycle * HealthCheckState :=
  let '(isHealthy, st0, _) := initialCheck first initial in
  let '(cs, st) := monitor cycles st0 in
  (isHealthy :: (healthy <$> cs), cs, st).

End Monitor.

(** The number of failing checks at the end of a sequence of check
    results: the consecutive failures so far. *)
Fixpoint leading_failures (results : list bool) : nat :=
  match results with
  | false :: rest => S (leading_failures rest)
  | _ => 0%nat
  end.

Definition consecutive_failures (results : list bool) : nat :=
  leading_failures (rev results).

End ServerHealth.

(** ** connectionHealthCheck.ts: the report of stale connections *)

Module ConnectionHealthCheck.
Import Store ProcessVars.

Definition CONNECTION_HEALTH_CHECK_INTERVAL : Z := 5 * 60 * 1000.
Definition HOST_STALE_THRESHOLD : Z := 10 * 60 * 1000.
Definition CLIENT_STALE_THRESHOLD : Z := 5 * 60 * 1000.

(** The [reason] of an element of [staleHosts], with the fields that come
    with it. *)
Inductive StaleReason :=
| NotFoundInDatabase
| NotUpdatedRecently (lastUpdated timeSinceUpdateMs : Z).

(** An element of [staleHosts].  Its [organizationId] is read from the
    connection handle, [host.organization?.id], which the registry record
    of this development does not hold; it is left out. *)
Record StaleHost := mkStaleHost {
  stale_id : string;
  reason : StaleReason
}.

Inductive LogRecord :=
| ErrorCheckingHost (hostId : string)
| StaleHostConnections (staleHosts : list StaleHost)
| StaleClientConnections (count : nat).

(** The loop over [connectedHosts.entries()].  Each iteration makes one
    database call, [findUnique], inside its own [try]: a call that throws
    is logged and the loop goes on, so the faults of a run are a set of
    call numbers, [faults n] telling whether call number [n] throws. *)
Fixpoint host_loop (faults : nat -> bool) (now : Z) (db : Table)
    (entries : list (string * ConnectedHost)) (n : nat)
    (staleHosts : list StaleHost) (log : list LogRecord)
  : list StaleHost * list LogRecord :=
  match entries with
  | [] => (staleHosts, log)
  | (id, host) :: rest =>
      if faults n then
        host_loop faults now db rest (S n) staleHosts (log ++ [ErrorCheckingHost id])
      else
        match db !! id with
        | None =>
            host_loop faults now db rest (S n)
              (staleHosts ++ [mkStaleHost id NotFoundInDatabase]) log
        | Some hostInstance =>
            let lastUpdated := updatedAt hostInstance in
            if bool_decide (now - lastUpdated > HOST_STALE_THRESHOLD) then
              host_loop faults now db rest (S n)
                (staleHosts ++
                 [mkStaleHost id (NotUpdatedRecently lastUpdated (now - lastUpdated))])
                log
            else host_loop faults now db rest (S n) staleHosts log
        end
  end.

(** The [staleHosts] a run collects. *)
Definition staleHosts_of (faults : nat -> bool) (now : Z) (db : Table)
    (connectedHosts : Registry) : list StaleHost :=
  (host_loop faults now db (map_to_list connectedHosts) 0 [] []).1.

(** [performConnectionHealthCheck]: what it logs.  The loop over the
    clients has an empty body, so [staleClients] stays empty. *)
Definition performConnectionHealthCheck (faults : nat -> bool) (now : Z)
    (db : Table) (connectedHosts : Registry) : list LogRecord :=
  let '(staleHosts, log) :=
    host_loop faults now db (map_to_list connectedHosts) 0 [] [] in
  let staleClients : list string := [] in
  log
  ++ (if bool_decide (0 < length staleHosts)%nat
      then [StaleHostConnections staleHosts] else [])
  ++ (if bool_decide (0 < length staleClients)%nat
      then [StaleClientConnections (length staleClients)] else []).

(** A connected host is stale at [now]: it has no record, or its record
    was last updated more than the threshold ago. *)
Definition stale_connection (now : Z) (db : Table) (id : string) : Prop :=
  db !! id = None
  \/ exists h, db !! id = Some h /\ now - updatedAt h > HOST_STALE_THRESHOLD.

End ConnectionHealthCheck.

(** ** Vocabulary for the properties of the sweep *)

Module SweepSpec.
Import Store.

(** A table on which the two statements of the sweep find nothing to do. *)
Definition settled (t_update t_delete : Z) (db : Table) : Prop :=
  forall id h, db !! id = Some h ->
               ~ stale_online t_update h /\ ~ old_terminal t_delete h.

End SweepSpec.

(** ** Vocabulary for the properties of the reconciler *)

Module ReconcilerSpec.
Import Store AutoReconnect.

(** The row is past the unreachable threshold at [now]. *)
Definition past_threshold (now : Z) (host : Row) : Prop :=
  now - updatedAt host.2 > HOST_UNREACHABLE_THRESHOLD.

#[export] Instance past_threshold_dec now host : Decision (past_threshold now host).
Proof. unfold past_threshold. apply _. Defined.

(** The element of [hostsToReset] the loop pushes for a row. *)
Definition to_reset (now : Z) (host : Row) : HostToReset :=
  mkHostToReset host.1 (organizationId host.2) (Store.apiKeyId host.2)
    (now - updatedAt host.2) (updatedAt host.2).

End ReconcilerSpec.

(** ** Vocabulary for the properties of the tracker and the counters *)

Module TrackerSpec.
Import ConnectionMonitor.

(** The number of ping failures that [ops] records for [id]. *)
Definition failures_of (id : string) (ops : list Op) : nat :=
  length (filter (fun o => match o with
                           | OpRecordPingFailure id' _ _ _ _ _ => bool_decide (id' = id)
                           | _ => false
                           end = true) ops).

(** The number of connections that [ops] reports closed. *)
Definition closed_of (ops : list Op) : nat :=
  length (filter (fun o => match o with
                           | OpConnectionClosed _ => true
                           | _ => false
                           end = true) ops).

(** The failure count the tracker holds for [id]: 0 when it has no entry. *)
Definition count_of (id : string) (s : State) : Z :=
  match map_get id (pingFailures s) with
  | Some f => failureCount f
  | None => 0
  end.

(** What a [Map] filled by [recordPingFailure] looks like: one binding per
    key, each entry filed under its own [instanceId], with at least one
    failure. *)
Definition well_formed (m : PingFailureMap) : Prop :=
  NoDup m.*1
  /\ forall k f, (k, f) ∈ m -> instanceId f = k /\ failureCount f >= 1.

(** The number of entries of kind [ty]. *)
Definition entries_of_kind (ty : ConnectionType) (m : PingFailureMap) : nat :=
  length (filter (fun f => type f = ty) (map_values m)).

(** What operation [o] hands to the logger as a ping-failure report:
    [recordPingFailure] is the only caller of [logPingFailures]. *)
Definition flush_of (o : Op) (s : State) : list LogRecord :=
  match o with
  | OpRecordPingFailure id ty org usr now currentTime =>
      (recordPingFailure id ty org usr now currentTime s).2
  | _ => []
  end.

(** The ping-failure reports of a run of operations, in their order. *)
Fixpoint flushes (ops : list Op) (s : State) : list LogRecord :=
  match ops with
  | [] => []
  | o :: rest => flush_of o s ++ flushes rest (step o s)
  end.

(** Every [recordPingFailure] among [ops] reads a clock of at most [t]. *)
Definition recorded_by (t : Z) (ops : list Op) : Prop :=
  forall id ty org usr now currentTime,
    OpRecordPingFailure id ty org usr now currentTime ∈ ops -> currentTime <= t.

End TrackerSpec.

(** * Properties *)

(** ** The connection statistics and the ping-failure tracker *)

Section ConnectionMonitorFacts.
Import ConnectionMonitor.

Lemma map_get_set_eq k v m : map_get k (map_set k v m) = Some v.
Proof.
  induction m as [|[k' v'] m IH]; simpl.
  - by rewrite bool_decide_eq_true_2.
  - case_bool_decide as Hk; simpl.
    + by rewrite bool_decide_eq_true_2.
    + by rewrite bool_decide_eq_false_2.
Qed.

Lemma map_get_set_ne k k' v m :
  k' ≠ k -> map_get k' (map_set k v m) = map_get k' m.
Proof.
  intros Hne. induction m as [|[k0 v0] m IH]; simpl.
  - by rewrite bool_decide_eq_false_2.
  - case_bool_decide as Hk; simpl.
    + subst k0. by rewrite !bool_decide_eq_false_2.
    + by rewrite IH.
Qed.

Lemma map_set_keys k v v0 m :
  map_get k m = Some v0 -> (map_set k v m).*1 = m.*1.
Proof.
  induction m as [|[k' v'] m IH]; simpl; [done|].
  case_bool_decide as Hk.
  - subst k'. by rewrite !fmap_cons.
  - intros H. rewrite !fmap_cons. f_equal. by apply IH.
Qed.

Lemma map_get_elem_of k v m : map_get k m = Some v -> (k, v) ∈ m.
Proof.
  induction m as [|[k' v'] m IH]; simpl; [done|].
  case_bool_decide as Hk.
  - intros [= ->]. subst. apply list_elem_of_here.
  - intros H. apply list_elem_of_further. auto.
Qed.

(** The loop of the flush pass computes the filter of the specification. *)
Lemma flush_loop_critical l acc :
  criticalFailures (fold_left flush_step l acc)
  = criticalFailures acc ++ filter (fun f => failureCount f > 3) l.
Proof.
  revert acc. induction l as [|f l IH]; intros acc; simpl.
  - by rewrite app_nil_r.
  - rewrite IH. unfold flush_step at 1. simpl.
    rewrite filter_cons. case_bool_decide; case_decide; try done.
    by rewrite <- app_assoc.
Qed.

Lemma flush_pass_critical m :
  criticalFailures (flush_pass m) = critical_entries m.
Proof. unfold flush_pass. by rewrite flush_loop_critical. Qed.

(** The two per-kind tallies of the pass add up to the size of the map. *)
Lemma flush_loop_tally l acc :
  byHost (fold_left flush_step l acc) + byClient (fold_left flush_step l acc)
  = byHost acc + byClient acc + Z.of_nat (length l).
Proof.
  revert acc. induction l as [|f l IH]; intros acc; simpl; [lia|].
  rewrite IH. unfold flush_step. simpl. destruct (type f); lia.
Qed.

(** C8.  For every entry of the ping-failure map, the flush pass marks the
    entry critical if and only if its failure count is greater than 3,
    whatever its kind: the entry is in the [criticalFailures] of the pass,
    and in the critical report the pass logs, exactly then; the pass is one
    loop over the map that yields its entries over 3 in map order. *)
Theorem flush_marks_critical_iff_over_three
    (m : PingFailureMap) (k : string) (f : PingFailure) :
  (k, f) ∈ m ->
  (f ∈ criticalFailures (flush_pass m) <-> failureCount f > 3)
  /\ ((exists fs, CriticalPingFailures fs ∈ logPingFailures m /\ f ∈ fs)
      <-> failureCount f > 3)
  /\ criticalFailures (flush_pass m) = critical_entries m.
Proof.
  intros Hin.
  assert (Hval : f ∈ map_values m).
  { unfold map_values. apply list_elem_of_fmap. by exists (k, f). }
  assert (Hcrit : f ∈ criticalFailures (flush_pass m) <-> failureCount f > 3).
  { rewrite flush_pass_critical. unfold critical_entries.
    rewrite list_elem_of_filter. tauto. }
  split; [done|]. split; [|apply flush_pass_critical].
  unfold logPingFailures.
  rewrite bool_decide_eq_false_2 by (destruct m; [by inversion Hin | done]).
  split.
  - intros (fs & Hlog & Hfs). apply Hcrit.
    apply elem_of_cons in Hlog as [Hlog | Hlog]; [done|].
    case_bool_decide; [|by apply elem_of_nil in Hlog].
    apply list_elem_of_singleton in Hlog. by inversion Hlog; subst.
  - intros Hgt. apply Hcrit in Hgt.
    exists (criticalFailures (flush_pass m)). split; [|done].
    apply list_elem_of_further.
    rewrite bool_decide_eq_true_2; [apply list_elem_of_here|].
    destruct (criticalFailures (flush_pass m)); [by inversion Hgt | simpl; lia].
Qed.

Lemma flush_marks_critical_witness :
  ("h1"%string, mkPingFailure "h1" client None None 4 10 50)
    ∈ [("h0"%string, mkPingFailure "h0" host None None 3 0 40);
       ("h1"%string, mkPingFailure "h1" client None None 4 10 50)]
  /\ logPingFailures
       [("h0"%string, mkPingFailure "h0" host None None 3 0 40);
        ("h1"%string, mkPingFailure "h1" client None None 4 10 50)]
     = [PingFailureStatistics 2 1 1;
        CriticalPingFailures [mkPingFailure "h1" client None None 4 10 50]]
  /\ (mkPingFailure "h1" client None None 4 10 50
        ∈ criticalFailures
            (flush_pass
               [("h0"%string, mkPingFailure "h0" host None None 3 0 40);
                ("h1"%string, mkPingFailure "h1" client None None 4 10 50)])
      <-> 4 > 3).
Proof.
  assert (Hin : ("h1"%string, mkPingFailure "h1" client None None 4 10 50)
    ∈ [("h0"%string, mkPingFailure "h0" host None None 3 0 40);
       ("h1"%string, mkPingFailure "h1" client None None 4 10 50)]).
  { apply list_elem_of_further, list_elem_of_here. }
  split; [exact Hin|]. split; [reflexivity|].
  exact (proj1 (flush_marks_critical_iff_over_three _ _ _ Hin)).
Defined.

(** C9.  [recordPingFailure] for an identifier that already has an entry
    adds one to that entry's [failureCount] and sets its [lastFailureTime];
    its [instanceId], [type], [organizationId], [userId] and
    [firstFailureTime] stay, the kind, organization and user of the call
    are ignored, and no other identifier's entry (nor the order of the
    entries, nor a connection counter) changes. *)
Theorem recordPingFailure_existing_entry
    (s : State) (id : string) (ty : ConnectionType) (org usr : option string)
    (now currentTime : Z) (existing : PingFailure) :
  map_get id (pingFailures s) = Some existing ->
  let s' := (recordPingFailure id ty org usr now currentTime s).1 in
  map_get id (pingFailures s')
  = Some (mkPingFailure (instanceId existing) (type existing)
            (organizationId existing) (userId existing)
            (failureCount existing + 1) (firstFailureTime existing) now)
  /\ (forall id', id' ≠ id ->
        map_get id' (pingFailures s') = map_get id' (pingFailures s))
  /\ (pingFailures s').*1 = (pingFailures s).*1
  /\ (forall ty' org' usr',
        recordPingFailure id ty' org' usr' now currentTime s
        = recordPingFailure id ty org usr now currentTime s)
  /\ totalHostConnections s' = totalHostConnections s
  /\ totalClientConnections s' = totalClientConnections s
  /\ totalConnectionsCreated s' = totalConnectionsCreated s
  /\ totalConnectionsClosed s' = totalConnectionsClosed s.
Proof.
  intros Hex. unfold recordPingFailure. rewrite Hex. simpl.
  split; [apply map_get_set_eq|].
  split; [intros id' Hne; by apply map_get_set_ne|].
  split; [by eapply map_set_keys|].
  done.
Qed.

Lemma recordPingFailure_existing_entry_witness :
  map_get "h1"
    (pingFailures
       (mkState 2 0 1 1 0
          [("h0"%string, mkPingFailure "h0" host None None 3 0 40);
           ("h1"%string, mkPingFailure "h1" client (Some "org"%string) None 4 10 50)]
          0))
  = Some (mkPingFailure "h1" client (Some "org"%string) None 4 10 50)
  /\ pingFailures
       (recordPingFailure "h1" host None (Some "u"%string) 60 61
          (mkState 2 0 1 1 0
             [("h0"%string, mkPingFailure "h0" host None None 3 0 40);
              ("h1"%string, mkPingFailure "h1" client (Some "org"%string) None 4 10 50)]
             0)).1
     = [("h0"%string, mkPingFailure "h0" host None None 3 0 40);
        ("h1"%string, mkPingFailure "h1" client (Some "org"%string) None 5 10 60)]
  /\ map_get "h1"
       (pingFailures
          (recordPingFailure "h1" host None (Some "u"%string) 60 61
             (mkState 2 0 1 1 0
                [("h0"%string, mkPingFailure "h0" host None None 3 0 40);
                 ("h1"%string, mkPingFailure "h1" client (Some "org"%string) None 4 10 50)]
                0)).1)
     = Some (mkPingFailure "h1" client (Some "org"%string) None 5 10 60).
Proof.
  split; [reflexivity|]. split; [reflexivity|].
  exact (proj1 (recordPingFailure_existing_entry
                  (mkState 2 0 1 1 0
                     [("h0"%string, mkPingFailure "h0" host None None 3 0 40);
                      ("h1"%string,
                       mkPingFailure "h1" client (Some "org"%string) None 4 10 50)]
                     0)
                  "h1" host None (Some "u"%string) 60 61
                  (mkPingFailure "h1" client (Some "org"%string) None 4 10 50)
                  eq_refl)).
Defined.

Lemma map_get_delete_eq k m : map_get k (map_delete k m) = None.
Proof.
  induction m as [|[k' v'] m IH]; simpl; [done|].
  case_bool_decide as Hk; simpl; [done|].
  by rewrite bool_decide_eq_false_2.
Qed.

Lemma map_get_delete_ne k k' m :
  k' ≠ k -> map_get k' (map_delete k m) = map_get k' m.
Proof.
  intros Hne. induction m as [|[k0 v0] m IH]; simpl; [done|].
  case_bool_decide as Hk; simpl.
  - subst k0. by rewrite bool_decide_eq_false_2.
  - by rewrite IH.
Qed.

(** X1.  [recordPingFailure] followed at once by [clearPingFailure] for the
    same identifier leaves the map without an entry for it, whether or not
    it had one before, and leaves every other identifier's entry as
    [recordPingFailure] left it. *)
Theorem clearPingFailure_after_record
    (s : State) (id : string) (ty : ConnectionType) (org usr : option string)
    (now currentTime : Z) :
  let s1 := (recordPingFailure id ty org usr now currentTime s).1 in
  map_get id (pingFailures (clearPingFailure id s1)) = None
  /\ (forall id', id' ≠ id ->
        map_get id' (pingFailures (clearPingFailure id s1))
        = map_get id' (pingFailures s)).
Proof.
  cbv zeta. split; [apply map_get_delete_eq|].
  intros id' Hne. simpl. rewrite map_get_delete_ne by done.
  destruct (map_get id (pingFailures s)); by apply map_get_set_ne.
Qed.

Lemma step_per_kind (o : Op) (s : State) :
  (totalHostConnections (step o s) = totalHostConnections s
   \/ (o = OpConnectionCreated host
       /\ totalHostConnections (step o s) = totalHostConnections s + 1))
  /\ (totalClientConnections (step o s) = totalClientConnections s
      \/ (o = OpConnectionCreated client
          /\ totalClientConnections (step o s) = totalClientConnections s + 1)).
Proof. destruct o as [[]| | | |]; simpl; auto. Qed.

Lemma created_of_cons ty o ops :
  created_of ty (o :: ops)
  = ((if bool_decide (o = OpConnectionCreated ty) then 1 else 0)
     + created_of ty ops)%nat.
Proof.
  unfold created_of. rewrite filter_cons.
  case_bool_decide as Ho.
  - subst o. rewrite decide_True; [done|]. by apply bool_decide_eq_true_2.
  - rewrite decide_False; [done|].
    destruct o as [ty'| | | |]; try done.
    rewrite bool_decide_eq_false_2; [done | congruence].
Qed.

Lemma run_counts ty ops s :
  (match ty with
   | host => totalHostConnections
   | client => totalClientConnections
   end) (run ops s)
  = (match ty with
     | host => totalHostConnections
     | client => totalClientConnections
     end) s + Z.of_nat (created_of ty ops).
Proof.
  revert s. induction ops as [|o ops IH]; intros s.
  - unfold created_of. simpl. destruct ty; lia.
  - change (run (o :: ops) s) with (run ops (step o s)).
    rewrite IH, created_of_cons.
    destruct (step_per_kind o s) as [Hh Hc].
    destruct ty; case_bool_decide as Ho; subst;
      try (simpl; lia);
      [destruct Hh as [->|[? _]] | destruct Hc as [->|[? _]]];
      try done; lia.
Qed.

(** C10.  The per-kind cumulative counters never decrease, under any
    operation of the module and so along any run: [incrementConnectionCreated]
    adds one to the counter of its kind and leaves the other,
    [incrementConnectionClosed] adds one to [totalConnectionsClosed] only
    and does the same whatever its kind argument; from the start each
    per-kind counter is the number of connections of its kind ever
    created, whatever has been closed. *)
Theorem per_kind_counters_count_created (o : Op) (ops : list Op) (s : State) (t0 : Z) :
  (totalHostConnections s <= totalHostConnections (step o s)
   /\ totalClientConnections s <= totalClientConnections (step o s))
  /\ (totalHostConnections s <= totalHostConnections (run ops s)
      /\ totalClientConnections s <= totalClientConnections (run ops s))
  /\ (totalHostConnections (incrementConnectionCreated host s)
        = totalHostConnections s + 1
      /\ totalClientConnections (incrementConnectionCreated host s)
        = totalClientConnections s
      /\ totalClientConnections (incrementConnectionCreated client s)
        = totalClientConnections s + 1
      /\ totalHostConnections (incrementConnectionCreated client s)
        = totalHostConnections s)
  /\ (forall ty,
        incrementConnectionClosed ty s
        = mkState (totalConnectionsCreated s) (totalConnectionsClosed s + 1)
            (totalHostConnections s) (totalClientConnections s)
            (lastConnectionStatsLogged s) (pingFailures s)
            (lastPingFailureLogTime s))
  /\ incrementConnectionClosed host s = incrementConnectionClosed client s
  /\ (totalHostConnections (run ops (initial t0)) = Z.of_nat (created_of host ops)
      /\ totalClientConnections (run ops (initial t0))
         = Z.of_nat (created_of client ops)).
Proof.
  split.
  { destruct (step_per_kind o s) as [[->|[_ ->]] [->|[_ ->]]]; lia. }
  split.
  { pose proof (run_counts host ops s). pose proof (run_counts client ops s).
    simpl in *. lia. }
  split; [done|]. split; [done|]. split; [done|].
  pose proof (run_counts host ops (initial t0)).
  pose proof (run_counts client ops (initial t0)).
  simpl in *. lia.
Qed.

End ConnectionMonitorFacts.

(** ** The table and its queries *)

Section StoreFacts.
Import Store.

Lemma db_call_None {A : Type} (n : nat) (r : option A) : db_call None n r = r.
Proof. done. Qed.

Lemma findMany_spec s (db : Table) id h :
  (id, h) ∈ findMany s db <-> db !! id = Some h /\ status h = s.
Proof.
  unfold findMany. rewrite list_elem_of_filter, elem_of_map_to_list.
  simpl. tauto.
Qed.

Lemma findMany_NoDup s (db : Table) : NoDup (findMany s db).*1.
Proof.
  unfold findMany.
  eapply sublist_NoDup; [apply (NoDup_fst_map_to_list db)|].
  apply fmap_sublist, sublist_filter.
Qed.

End StoreFacts.

(** ** The liveness sweep *)

Section SweepFacts.
Import Store HostStatusCheck.

Lemma mark_lookup now (db : Table) id :
  (sql_mark_unreachable now db).1 !! id
  = (fun h => if decide (stale_online now h) then set_status UNREACHABLE h else h)
      <$> db !! id.
Proof. unfold sql_mark_unreachable. simpl. by rewrite lookup_fmap. Qed.

Lemma returning_filter (P : Row -> Prop) `{!forall r, Decision (P r)}
    (db : Table) id org :
  (id, org) ∈ returning (filter P (map_to_list db))
  <-> exists h, db !! id = Some h /\ organizationId h = org /\ P (id, h).
Proof.
  unfold returning. rewrite list_elem_of_fmap. split.
  - intros ([id' h] & Heq & Hin). simpl in Heq. inversion Heq; subst.
    apply list_elem_of_filter in Hin as [HP Hin].
    apply elem_of_map_to_list in Hin. eauto.
  - intros (h & Hdb & <- & HP). exists (id, h). split; [done|].
    apply list_elem_of_filter. split; [done|]. by apply elem_of_map_to_list.
Qed.

Lemma delete_old_lookup now (db : Table) id :
  (sql_delete_old now db).1 !! id
  = match db !! id with
    | Some h => if decide (old_terminal now h) then None else Some h
    | None => None
    end.
Proof.
  unfold sql_delete_old. simpl.
  destruct (db !! id) as [h|] eqn:Hdb.
  - case_decide as Hold.
    + apply map_lookup_filter_None. right. intros h' Hh'. simpl.
      rewrite Hdb in Hh'. inversion Hh'; subst. tauto.
    + apply map_lookup_filter_Some. done.
  - apply map_lookup_filter_None. by left.
Qed.

(** A run of the sweep in which no database call throws. *)
Lemma sweep_table t_update t_delete (db : Table) id :
  table_after (checkForUnreachableHosts None t_update t_delete db) !! id
  = match db !! id with
    | Some h =>
        let h1 := if decide (stale_online t_update h)
                  then set_status UNREACHABLE h else h in
        if decide (old_terminal t_delete h1) then None else Some h1
    | None => None
    end.
Proof.
  unfold checkForUnreachableHosts. rewrite !db_call_None.
  destruct (sql_mark_unreachable t_update db) as [db1 marked] eqn:Hm.
  destruct (sql_delete_old t_delete db1) as [db2 deleted] eqn:Hd.
  simpl.
  replace db2 with (sql_delete_old t_delete db1).1 by (by rewrite Hd).
  rewrite delete_old_lookup.
  replace db1 with (sql_mark_unreachable t_update db).1 by (by rewrite Hm).
  rewrite mark_lookup. by destruct (db !! id).
Qed.


Lemma sweep_deleteResult t_update t_delete (db : Table) :
  deleteResult (checkForUnreachableHosts None t_update t_delete db)
  = (sql_delete_old t_delete (sql_mark_unreachable t_update db).1).2.
Proof.
  unfold checkForUnreachableHosts. rewrite !db_call_None.
  destruct (sql_mark_unreachable t_update db) as [db1 marked]. cbn [fst].
  by destruct (sql_delete_old t_delete db1).
Qed.


(** C6 (amended).  One sweep cycle deletes exactly the records
    that are last updated more than the retention window (6 hours) before
    the database's [now()] of the delete statement and are UNREACHABLE or
    OFFLINE when that statement runs, which is after the marking step of
    the same cycle: the records UNREACHABLE or OFFLINE at the start of the
    cycle, and the records ONLINE at its start that the cycle has just
    marked UNREACHABLE.  Records newer than the window are never deleted,
    and neither is a record that stays ONLINE through the marking step. *)
Theorem sweep_deletes_old_after_marking
    (t_update t_delete : Z) (db : Table) (id : string) (h : HostInstance) :
  db !! id = Some h ->
  let sw := checkForUnreachableHosts None t_update t_delete db in
  let terminal_at_delete :=
    status h = UNREACHABLE \/ status h = OFFLINE
    \/ (status h = ONLINE /\ updatedAt h < t_update - LIVENESS_TIMEOUT) in
  (table_after sw !! id = None
   <-> updatedAt h < t_delete - RETENTION_WINDOW /\ terminal_at_delete)
  /\ ((id, organizationId h) ∈ deleteResult sw
      <-> updatedAt h < t_delete - RETENTION_WINDOW /\ terminal_at_delete)
  /\ (~ updatedAt h < t_delete - RETENTION_WINDOW ->
      table_after sw !! id <> None)
  /\ (status h = ONLINE -> ~ updatedAt h < t_update - LIVENESS_TIMEOUT ->
      table_after sw !! id = Some h)
  /\ RETENTION_WINDOW = 21600000.
Proof.
  intros Hdb. cbv zeta.
  assert (Hgone :
    table_after (checkForUnreachableHosts None t_update t_delete db) !! id = None
    <-> updatedAt h < t_delete - RETENTION_WINDOW
        /\ (status h = UNREACHABLE \/ status h = OFFLINE
            \/ (status h = ONLINE /\ updatedAt h < t_update - LIVENESS_TIMEOUT))).
  { rewrite sweep_table, Hdb. cbv zeta.
    unfold old_terminal, stale_online.
    repeat case_decide; simpl in *; split; try done; naive_solver. }
  split; [exact Hgone|]. split; [|split; [|split; [|done]]].
  - rewrite sweep_deleteResult. unfold sql_delete_old. cbn [snd].
    rewrite returning_filter. split.
    + intros (h1 & Hh1 & _ & Hold). rewrite mark_lookup, Hdb in Hh1.
      simpl in Hh1. inversion Hh1; subst h1. clear Hh1.
      unfold old_terminal, stale_online in *. simpl in Hold.
      case_decide; simpl in *; naive_solver.
    + intros [Hold Hterm].
      exists (if decide (stale_online t_update h)
              then set_status UNREACHABLE h else h).
      rewrite mark_lookup, Hdb. split; [done|].
      unfold old_terminal, stale_online in *.
      case_decide; simpl; naive_solver.
  - intros Hnew Hnone. apply Hgone in Hnone. tauto.
  - intros Hon Hfresh. rewrite sweep_table, Hdb. cbv zeta.
    destruct (decide (stale_online t_update h)) as [[_ Hs]|_]; [done|].
    rewrite decide_False; [done|].
    unfold old_terminal. rewrite Hon. naive_solver.
Qed.

(** Counterexample to C6 as stated: a record that is ONLINE and 7 hours
    stale when the cycle starts is marked UNREACHABLE by the update
    statement and deleted by the delete statement of the same cycle. *)
Lemma sweep_deletes_online_record_counterexample :
  let db : Table := {[ "h1"%string := mkHostInstance "org" "key" ONLINE 0 ]} in
  let sw := checkForUnreachableHosts None 25200000 25200000 db in
  db !! "h1"%string = Some (mkHostInstance "org" "key" ONLINE 0)
  /\ 0 < 25200000 - RETENTION_WINDOW
  /\ table_after sw !! "h1"%string = None
  /\ deleteResult sw = [("h1"%string, "org"%string)].
Proof. cbv zeta. split; [|split; [|split]]; by vm_compute. Qed.

Lemma sweep_deletes_old_after_marking_witness :
  let db : Table :=
    {[ "h1"%string := mkHostInstance "org" "key" OFFLINE 0;
       "h2"%string := mkHostInstance "org" "key2" UNREACHABLE 25000000;
       "h3"%string := mkHostInstance "org" "key3" ONLINE 25199999 ]} in
  let sw := checkForUnreachableHosts None 25200000 25200001 db in
  db !! "h1"%string = Some (mkHostInstance "org" "key" OFFLINE 0)
  /\ table_after sw !! "h1"%string = None
  /\ table_after sw !! "h2"%string
     = Some (mkHostInstance "org" "key2" UNREACHABLE 25000000)
  /\ table_after sw !! "h3"%string
     = Some (mkHostInstance "org" "key3" ONLINE 25199999)
  /\ deleteResult sw = [("h1"%string, "org"%string)].
Proof.
  cbv zeta.
  assert (Hdb : ({[ "h1"%string := mkHostInstance "org" "key" OFFLINE 0;
                    "h2"%string := mkHostInstance "org" "key2" UNREACHABLE 25000000;
                    "h3"%string := mkHostInstance "org" "key3" ONLINE 25199999 ]}
                 : Table) !! "h1"%string
                = Some (mkHostInstance "org" "key" OFFLINE 0)) by by vm_compute.
  split; [exact Hdb|]. split; [|repeat split; by vm_compute].
  apply (proj1 (sweep_deletes_old_after_marking 25200000 25200001 _ _ _ Hdb)).
  split; [by vm_compute|]. right. left. reflexivity.
Defined.

End SweepFacts.

(** ** The reconnect reconciler *)

Section ReconcilerFacts.
Import Store ProcessVars AutoReconnect.

(** The test the loop makes is the specification's "superseded". *)
Lemma apiKeyHasNewConnection_spec (connectedHosts : Registry) id h :
  apiKeyHasNewConnection connectedHosts (id, h) = true
  <-> superseded connectedHosts id h.
Proof.
  unfold apiKeyHasNewConnection, superseded, values.
  rewrite existsb_exists. simpl. split.
  - intros (c & Hin & Hc).
    apply list_elem_of_In, list_elem_of_fmap in Hin as ([k c'] & -> & Hin).
    apply elem_of_map_to_list in Hin. simpl in Hc.
    apply andb_true_iff in Hc as [Hkey Hid].
    apply bool_decide_eq_true in Hkey. apply negb_true_iff in Hid.
    apply bool_decide_eq_false in Hid. eauto.
  - intros (k & c & Hreg & Hkey & Hid). exists c. split.
    + apply list_elem_of_In, list_elem_of_fmap. exists (k, c).
      split; [done|]. by apply elem_of_map_to_list.
    + apply andb_true_iff. split.
      * by apply bool_decide_eq_true.
      * apply negb_true_iff. by apply bool_decide_eq_false.
Qed.

Variable touch : Z -> Z.

(** The loop, when no database call throws, over rows with distinct
    identifiers that are all in the table: it ends normally, resolves each
    of the rows and leaves every other record. *)
Lemma reset_loop_ok now connectedHosts hosts st :
  NoDup hosts.*1 ->
  (forall id h, (id, h) ∈ hosts -> loop_db st !! id = Some h) ->
  exists st',
    reset_loop touch None now connectedHosts hosts st = inr st'
    /\ (forall id, id ∉ hosts.*1 -> loop_db st' !! id = loop_db st !! id)
    /\ (forall host, host ∈ hosts ->
          loop_db st' !! host.1 = resolved touch now connectedHosts host).
Proof.
  revert st. induction hosts as [|[id0 h0] rest IH]; intros st Hnd Hin.
  - exists st. split; [done|]. split; [done|].
    intros host Hhost. by apply elem_of_nil in Hhost.
  - rewrite fmap_cons in Hnd. apply NoDup_cons in Hnd as [Hfresh Hnd].
    simpl in Hfresh.
    assert (Hdb0 : loop_db st !! id0 = Some h0) by (apply Hin; left).
    assert (Hrest : forall st1,
      (forall id, id ≠ id0 -> loop_db st1 !! id = loop_db st !! id) ->
      forall id h, (id, h) ∈ rest -> loop_db st1 !! id = Some h).
    { intros st1 Hst1 id h Hidh. rewrite Hst1.
      - apply Hin. by right.
      - intros ->. apply Hfresh. apply list_elem_of_fmap. by exists (id0, h). }
    assert (Hstep : forall st1 r,
      (forall id, id ≠ id0 -> loop_db st1 !! id = loop_db st !! id) ->
      loop_db st1 !! id0 = r ->
      resolved touch now connectedHosts (id0, h0) = r ->
      exists st',
        reset_loop touch None now connectedHosts rest st1 = inr st'
        /\ (forall id, id ∉ ((id0, h0) :: rest).*1 ->
              loop_db st' !! id = loop_db st !! id)
        /\ (forall host, host ∈ (id0, h0) :: rest ->
              loop_db st' !! host.1 = resolved touch now connectedHosts host)).
    { intros st1 r Hother Hthis Hres.
      destruct (IH st1 Hnd (Hrest st1 Hother)) as (st' & Hrun & Hout & Hres').
      exists st'. split; [done|]. split.
      - intros id Hid. rewrite fmap_cons in Hid.
        apply not_elem_of_cons in Hid as [Hne Hid].
        rewrite Hout by done. by apply Hother.
      - intros host [->|Hhost]%elem_of_cons.
        + simpl. rewrite Hout by done. congruence.
        + by apply Hres'. }
    simpl. unfold resolved in Hstep. simpl in Hstep.
    destruct (bool_decide (now - updatedAt h0 > HOST_UNREACHABLE_THRESHOLD)).
    + destruct (apiKeyHasNewConnection connectedHosts (id0, h0)).
      * rewrite db_call_None. unfold prisma_delete. rewrite Hdb0.
        eapply Hstep; [| |done]; simpl.
        -- intros id Hne. by rewrite lookup_delete_ne.
        -- by rewrite lookup_delete_eq.
      * rewrite db_call_None. unfold prisma_update. rewrite Hdb0.
        eapply Hstep; [| |done]; simpl.
        -- intros id Hne. by rewrite lookup_insert_ne.
        -- by rewrite lookup_insert_eq.
    + eapply Hstep; [done|done|done].
Qed.

(** A whole run in which no database call throws. *)
Lemma reconciler_table now connectedHosts (db : Table) id :
  (checkForUnreachableHostsToReset touch None now connectedHosts db).1 !! id
  = match db !! id with
    | Some h =>
        if decide (status h = UNREACHABLE)
        then resolved touch now connectedHosts (id, h) else Some h
    | None => None
    end.
Proof.
  unfold checkForUnreachableHostsToReset. rewrite db_call_None.
  assert (Hnone : forall h, db !! id = Some h -> status h ≠ UNREACHABLE ->
                            id ∉ (findMany UNREACHABLE db).*1).
  { intros h Hdb Hst Hin. apply list_elem_of_fmap in Hin as ([id' h'] & -> & Hin).
    apply findMany_spec in Hin as [Hdb' Hst']. simpl in *. congruence. }
  assert (Habsent : db !! id = None -> id ∉ (findMany UNREACHABLE db).*1).
  { intros Hdb Hin. apply list_elem_of_fmap in Hin as ([id' h'] & -> & Hin).
    apply findMany_spec in Hin as [Hdb' _]. simpl in *. congruence. }
  case_bool_decide as Hlen.
  - simpl. destruct (db !! id) as [h|] eqn:Hdb; [|done].
    case_decide as Hst; [|done].
    assert (Hin : (id, h) ∈ findMany UNREACHABLE db) by by apply findMany_spec.
    destruct (findMany UNREACHABLE db); [by apply elem_of_nil in Hin | done].
  - destruct (reset_loop_ok now connectedHosts (findMany UNREACHABLE db)
                (mkLoopState db 1 [] [FoundUnreachableHosts
                                        (length (findMany UNREACHABLE db))]))
      as (st' & Hrun & Hout & Hres).
    { apply findMany_NoDup. }
    { intros id' h' Hin. by apply findMany_spec in Hin as [? _]. }
    rewrite Hrun. simpl in *.
    destruct (db !! id) as [h|] eqn:Hdb.
    + case_decide as Hst.
      * apply (Hres (id, h)). by apply findMany_spec.
      * rewrite Hout; [done | by eapply Hnone].
    + rewrite Hout; [done | by apply Habsent].
Qed.

(** C1.  In one run of the reconciler in which no database call throws,
    every record that is UNREACHABLE and was last updated more than the
    unreachable threshold (30 minutes) ago is deleted when some live
    connection of the registry has the same API-key reference and another
    identifier, and otherwise is kept with status OFFLINE (its other
    columns as they were, [updatedAt] as a write through the client
    leaves it); an UNREACHABLE record within the threshold, and every
    record that is not UNREACHABLE, is left as it is. *)
Theorem reconciler_resolves_stale_unreachable
    (now : Z) (connectedHosts : Registry) (db : Table)
    (id : string) (h : HostInstance) :
  db !! id = Some h ->
  let db' := (checkForUnreachableHostsToReset touch None now connectedHosts db).1 in
  (status h = UNREACHABLE -> now - updatedAt h > HOST_UNREACHABLE_THRESHOLD ->
     (superseded connectedHosts id h -> db' !! id = None)
     /\ (~ superseded connectedHosts id h ->
         db' !! id
         = Some (mkHostInstance (organizationId h) (Store.apiKeyId h) OFFLINE
                   (touch (updatedAt h)))))
  /\ (status h = UNREACHABLE ->
      ~ now - updatedAt h > HOST_UNREACHABLE_THRESHOLD -> db' !! id = Some h)
  /\ (status h <> UNREACHABLE -> db' !! id = Some h)
  /\ HOST_UNREACHABLE_THRESHOLD = 1800000.
Proof.
  intros Hdb. cbv zeta. rewrite reconciler_table, Hdb. unfold resolved. simpl.
  split; [|split; [|split; [|done]]].
  - intros Hst Hold. rewrite decide_True by done.
    rewrite bool_decide_eq_true_2 by done. split.
    + intros Hsup. apply apiKeyHasNewConnection_spec in Hsup. by rewrite Hsup.
    + intros Hsup.
      destruct (apiKeyHasNewConnection connectedHosts (id, h)) eqn:Hnew; [|done].
      by apply apiKeyHasNewConnection_spec in Hnew.
  - intros Hst Hnew. rewrite decide_True by done.
    by rewrite bool_decide_eq_false_2.
  - intros Hst. by rewrite decide_False.
Qed.

End ReconcilerFacts.

Lemma reconciler_resolves_stale_unreachable_witness :
  let db : Store.Table :=
    {[ "old"%string := Store.mkHostInstance "org" "key" Store.UNREACHABLE 0;
       "gone"%string := Store.mkHostInstance "org" "key2" Store.UNREACHABLE 0;
       "new"%string := Store.mkHostInstance "org" "key" Store.ONLINE 1800000 ]} in
  let connectedHosts : ProcessVars.Registry :=
    {[ "new"%string := ProcessVars.mkConnectedHost "key" "new" ]} in
  let db' :=
    (AutoReconnect.checkForUnreachableHostsToReset (fun _ => 1800001) None 1800001
       connectedHosts db).1 in
  db !! "old"%string = Some (Store.mkHostInstance "org" "key" Store.UNREACHABLE 0)
  /\ 1800001 - 0 > AutoReconnect.HOST_UNREACHABLE_THRESHOLD
  /\ AutoReconnect.superseded connectedHosts "old"
       (Store.mkHostInstance "org" "key" Store.UNREACHABLE 0)
  /\ db' !! "old"%string = None
  /\ db' !! "gone"%string
     = Some (Store.mkHostInstance "org" "key2" Store.OFFLINE 1800001)
  /\ db' !! "new"%string
     = Some (Store.mkHostInstance "org" "key" Store.ONLINE 1800000).
Proof.
  cbv zeta.
  assert (Hsup : AutoReconnect.superseded
                   ({[ "new"%string := ProcessVars.mkConnectedHost "key" "new" ]}
                    : ProcessVars.Registry)
                   "old" (Store.mkHostInstance "org" "key" Store.UNREACHABLE 0)).
  { exists "new"%string, (ProcessVars.mkConnectedHost "key" "new").
    split; [reflexivity|]. split; [reflexivity | discriminate]. }
  split; [reflexivity|]. split; [reflexivity|]. split; [exact Hsup|].
  split; [|split; by vm_compute].
  exact (proj1 (proj1
    (reconciler_resolves_stale_unreachable (fun _ => 1800001) 1800001
       {[ "new"%string := ProcessVars.mkConnectedHost "key" "new" ]}
       {[ "old"%string := Store.mkHostInstance "org" "key" Store.UNREACHABLE 0;
          "gone"%string := Store.mkHostInstance "org" "key2" Store.UNREACHABLE 0;
          "new"%string := Store.mkHostInstance "org" "key" Store.ONLINE 1800000 ]}
       "old" (Store.mkHostInstance "org" "key" Store.UNREACHABLE 0) eq_refl)
    eq_refl eq_refl) Hsup).
Defined.

(** ** The server health monitor *)

Section CheckFacts.
Import Store ProcessVars ServerHealth.

(** What a health check logs: none of it is a record of the restart
    handler or the exit timer. *)
Lemma check_effects fault (db : Table) (reg : Registry) failures e :
  e ∈ (checkServerHealth fault db reg failures).2 ->
  e = LogDatabaseCheckFailed \/ e = LogCheckError
  \/ (exists a b, e = LogInconsistency a b)
  \/ (exists ids, e = LogDisconnectedHosts ids).
Proof.
  unfold checkServerHealth, db_call.
  repeat case_bool_decide; simpl;
    rewrite ?elem_of_app, ?elem_of_cons, ?elem_of_nil; naive_solver.
Qed.

Lemma check_no_handler fault (db : Table) (reg : Registry) failures :
  (forall n, LogInCooldown n ∉ (checkServerHealth fault db reg failures).2)
  /\ (forall n, LogInitiatingRestart n ∉ (checkServerHealth fault db reg failures).2)
  /\ existsb is_exit (checkServerHealth fault db reg failures).2 = false.
Proof.
  split; [|split].
  - intros n Hin. apply check_effects in Hin. naive_solver.
  - intros n Hin. apply check_effects in Hin. naive_solver.
  - apply not_true_is_false. intros Hex.
    apply existsb_exists in Hex as (e & Hin & He).
    apply list_elem_of_In, check_effects in Hin. destruct e; naive_solver.
Qed.

Lemma filter_all {A : Type} (P : A -> Prop) `{!forall x, Decision (P x)} (l : list A) :
  Forall P l -> filter P l = l.
Proof.
  induction 1 as [|x l Hx Hl IH]; [done|].
  rewrite filter_cons, decide_True by done. by rewrite IH.
Qed.

(** With an empty registry every ONLINE record counts as disconnected. *)
Lemma disconnectedHosts_empty_registry (db : Table) :
  disconnectedHosts ∅ (findMany ONLINE db) = findMany ONLINE db.
Proof.
  unfold disconnectedHosts, keys. rewrite map_to_list_empty.
  apply filter_all, Forall_forall. intros [id h] Hin.
  apply findMany_spec in Hin as [_ Hst]. simpl. split; [done|].
  apply not_elem_of_nil.
Qed.

(** C7 (amended).  A check that sees persisted ONLINE records
    while the registry is empty flags the inconsistency and fails when
    the failure counter is non-zero at that time.  When the counter is
    zero the inconsistency does not fail the check, and the check goes on
    to count the ONLINE records absent from the registry, here all of
    them: it fails exactly when there are more than 3. *)
Theorem empty_registry_fails_after_failure_or_over_three
    (db : Table) (reg : Registry) (failures : Z) :
  (0 < length (findMany ONLINE db))%nat ->
  size reg = 0%nat ->
  let r := checkServerHealth None db reg failures in
  LogInconsistency (length (findMany ONLINE db)) 0 ∈ r.2
  /\ (failures > 0 -> r.1 = false)
  /\ (~ failures > 0 ->
      (r.1 = false <-> (3 < length (findMany ONLINE db))%nat))
  /\ (~ failures > 0 -> (length (findMany ONLINE db) <= 3)%nat -> r.1 = true).
Proof.
  intros Hpos Hsize. apply map_size_empty_iff in Hsize. subst reg.
  cbv zeta. unfold checkServerHealth. rewrite !db_call_None.
  rewrite disconnectedHosts_empty_registry, map_size_empty.
  rewrite !bool_decide_eq_true_2 by done. simpl.
  repeat case_bool_decide; simpl;
    rewrite ?elem_of_app, ?elem_of_cons; intuition (try done; try lia).
Qed.

(** Counterexample to C7 as stated: with four ONLINE records, an empty
    registry and no failure before, the check fails. *)
Lemma empty_registry_first_signal_counterexample :
  let db : Table :=
    {[ "h1"%string := mkHostInstance "org" "k1" ONLINE 0;
       "h2"%string := mkHostInstance "org" "k2" ONLINE 0;
       "h3"%string := mkHostInstance "org" "k3" ONLINE 0;
       "h4"%string := mkHostInstance "org" "k4" ONLINE 0 ]} in
  length (findMany ONLINE db) = 4%nat
  /\ size (∅ : Registry) = 0%nat
  /\ healthCheckFailures initial = 0
  /\ (checkServerHealth None db ∅ (healthCheckFailures initial)).1 = false.
Proof. cbv zeta. repeat split; by vm_compute. Qed.

Lemma empty_registry_witness :
  let db : Table :=
    {[ "h1"%string := mkHostInstance "org" "k1" ONLINE 0;
       "h2"%string := mkHostInstance "org" "k2" ONLINE 0 ]} in
  (0 < length (findMany ONLINE db))%nat
  /\ size (∅ : Registry) = 0%nat
  /\ (checkServerHealth None db ∅ 1).1 = false
  /\ (checkServerHealth None db ∅ 0).1 = true.
Proof.
  cbv zeta.
  assert (Hpos : (0 < length (findMany ONLINE
    ({[ "h1"%string := mkHostInstance "org" "k1" ONLINE 0;
        "h2"%string := mkHostInstance "org" "k2" ONLINE 0 ]} : Table)))%nat).
  { vm_compute. lia. }
  assert (Hnot : ~ 0 > 0) by lia.
  assert (Hfew : (length (findMany ONLINE
    ({[ "h1"%string := mkHostInstance "org" "k1" ONLINE 0;
        "h2"%string := mkHostInstance "org" "k2" ONLINE 0 ]} : Table)) <= 3)%nat).
  { vm_compute. lia. }
  split; [exact Hpos|]. split; [reflexivity|]. split.
  - exact (proj1 (proj2
      (empty_registry_fails_after_failure_or_over_three
         {[ "h1"%string := mkHostInstance "org" "k1" ONLINE 0;
            "h2"%string := mkHostInstance "org" "k2" ONLINE 0 ]}
         ∅ 1 Hpos eq_refl)) eq_refl).
  - exact (proj2 (proj2 (proj2
      (empty_registry_fails_after_failure_or_over_three
         {[ "h1"%string := mkHostInstance "org" "k1" ONLINE 0;
            "h2"%string := mkHostInstance "org" "k2" ONLINE 0 ]}
         ∅ 0 Hpos eq_refl))) Hnot Hfew).
Defined.

Lemma consecutive_failures_snoc results b :
  consecutive_failures (results ++ [b])
  = if b then 0%nat else S (consecutive_failures results).
Proof. unfold consecutive_failures. rewrite rev_unit. by destruct b. Qed.

(** At least three consecutive failures: the last three checks failed. *)
Lemma three_consecutive_failures results :
  (3 <= consecutive_failures results)%nat
  <-> exists earlier, results = earlier ++ [false; false; false].
Proof.
  unfold consecutive_failures. split.
  - intros Hge. rewrite <- (rev_involutive results).
    destruct (rev results) as [|[] [|[] [|[] r]]]; simpl in Hge; try lia.
    exists (rev r). simpl. by rewrite <- !app_assoc.
  - intros (earlier & ->). rewrite rev_app_distr. simpl. lia.
Qed.

End CheckFacts.

Section MonitorFacts.
Import Store ProcessVars ServerHealth.

Variable touch : Z -> Z.

Lemma cycle_healthy_eq (i : CycleInput) st :
  healthy (healthCheckCycle touch i st)
  = (checkServerHealth (checkFault i) (table i) (connectedHosts i)
       (healthCheckFailures st)).1.
Proof.
  unfold healthCheckCycle.
  destruct (checkServerHealth _ _ _ _) as [[] log]; simpl.
  - by case_bool_decide.
  - case_bool_decide; [|done].
    by destruct (handleUnhealthyServer _ _ _ _ _) as [[? ?] ?].
Qed.

(** A periodic check that succeeds. *)
Lemma cycle_success (i : CycleInput) st :
  healthy (healthCheckCycle touch i st) = true ->
  let c := healthCheckCycle touch i st in
  table_after c = table i
  /\ healthCheckFailures (state_after c)
     = (if bool_decide (healthCheckFailures st > 0) then 0 else healthCheckFailures st)
  /\ lastRestartTime (state_after c) = lastRestartTime st
  /\ isServerHealthy (state_after c) = true
  /\ ~ reached_handler c
  /\ exits c = false.
Proof.
  rewrite cycle_healthy_eq. cbv zeta. unfold healthCheckCycle, reached_handler, exits.
  pose proof (check_no_handler (checkFault i) (table i) (connectedHosts i)
                (healthCheckFailures st)) as (Hcool & Hinit & Hexit).
  destruct (checkServerHealth _ _ _ _) as [b log]; simpl in *. intros ->.
  case_bool_decide; simpl; repeat split; try done.
  - intros (n & [Hin|Hin]); apply elem_of_app in Hin as [Hin|Hin];
      try (by eapply Hcool); try (by eapply Hinit);
      by apply list_elem_of_singleton in Hin.
  - rewrite existsb_app, Hexit. done.
  - intros (n & [Hin|Hin]); [by eapply Hcool | by eapply Hinit].
Qed.

(** [handleUnhealthyServer], case by case. *)
Lemma handler_cases fault now (db : Table) st :
  let '(db', st', log) := handleUnhealthyServer touch fault now db st in
  (now - lastRestartTime st < RESTART_COOLDOWN ->
     db' = db /\ st' = st
     /\ log = [LogInCooldown ((now - lastRestartTime st) `div` 60000)])
  /\ (~ now - lastRestartTime st < RESTART_COOLDOWN -> fault <> Some 0%nat ->
       db' = prisma_updateMany touch ONLINE UNREACHABLE db
       /\ st' = mkHealthCheckState (healthCheckFailures st) now (isServerHealthy st)
       /\ log = [LogInitiatingRestart (healthCheckFailures st); LogExiting;
                 ExitAfter 1000 1])
  /\ (~ now - lastRestartTime st < RESTART_COOLDOWN -> fault = Some 0%nat ->
       db' = db /\ st' = st
       /\ log = [LogInitiatingRestart (healthCheckFailures st); LogPrepareFailed]).
Proof.
  unfold handleUnhealthyServer, db_call.
  repeat case_bool_decide; simpl; repeat split; try done; intros; by subst.
Qed.

(** A periodic check that fails. *)
Lemma cycle_failure (i : CycleInput) st :
  healthy (healthCheckCycle touch i st) = false ->
  exists log,
    (forall n, LogInCooldown n ∉ log)
    /\ (forall n, LogInitiatingRestart n ∉ log)
    /\ existsb is_exit log = false
    /\ healthCheckCycle touch i st
       = let st1 := mkHealthCheckState (healthCheckFailures st + 1)
                      (lastRestartTime st) false in
         if bool_decide (healthCheckFailures st + 1 >= RESTART_THRESHOLD) then
           let '(db', st2, log2) :=
             handleUnhealthyServer touch (restartFault i) (now i) (table i) st1 in
           mkCycle false db' st2 (log ++ log2)
         else mkCycle false (table i) st1 log.
Proof.
  rewrite cycle_healthy_eq. unfold healthCheckCycle.
  pose proof (check_no_handler (checkFault i) (table i) (connectedHosts i)
                (healthCheckFailures st)) as (Hcool & Hinit & Hexit).
  destruct (checkServerHealth _ _ _ _) as [b log]; simpl in *. intros ->.
  exists (log ++ [LogCheckFailed (healthCheckFailures st + 1)]).
  split; [|split; [|split]].
  - intros n [Hin|Hin]%elem_of_app; [by eapply Hcool|].
    by apply list_elem_of_singleton in Hin.
  - intros n [Hin|Hin]%elem_of_app; [by eapply Hinit|].
    by apply list_elem_of_singleton in Hin.
  - by rewrite existsb_app, Hexit.
  - done.
Qed.

(** What [updateMany] makes of the table: every ONLINE record becomes
    UNREACHABLE, every other record stays. *)
Lemma updateMany_lookup (db : Table) id :
  prisma_updateMany touch ONLINE UNREACHABLE db !! id
  = (fun h => if decide (status h = ONLINE)
              then mkHostInstance (organizationId h) (Store.apiKeyId h)
                     UNREACHABLE (touch (updatedAt h))
              else h) <$> db !! id.
Proof. unfold prisma_updateMany. by rewrite lookup_fmap. Qed.

(** A failing check at the threshold, past the cooldown: the cycle in
    full, by whether the bulk update throws. *)
Lemma cycle_past_cooldown (i : CycleInput) (st : HealthCheckState) :
  healthy (healthCheckCycle touch i st) = false ->
  healthCheckFailures st + 1 >= RESTART_THRESHOLD ->
  ~ now i - lastRestartTime st < RESTART_COOLDOWN ->
  exists log,
    (forall n, LogInitiatingRestart n ∉ log)
    /\ existsb is_exit log = false
    /\ healthCheckCycle touch i st
       = if decide (restartFault i = Some 0%nat) then
           mkCycle false (table i)
             (mkHealthCheckState (healthCheckFailures st + 1)
                (lastRestartTime st) false)
             (log ++ [LogInitiatingRestart (healthCheckFailures st + 1);
                      LogPrepareFailed])
         else
           mkCycle false (prisma_updateMany touch ONLINE UNREACHABLE (table i))
             (mkHealthCheckState (healthCheckFailures st + 1) (now i) false)
             (log ++ [LogInitiatingRestart (healthCheckFailures st + 1);
                      LogExiting; ExitAfter 1000 1]).
Proof.
  intros Hfail Hthr Hcool.
  destruct (cycle_failure i st Hfail) as (log & Hlc & Hli & Hle & ->).
  exists log. split; [done|]. split; [done|].
  cbv zeta. rewrite bool_decide_eq_true_2 by done.
  pose proof (handler_cases (restartFault i) (now i) (table i)
                (mkHealthCheckState (healthCheckFailures st + 1)
                   (lastRestartTime st) false)) as Hh.
  destruct (handleUnhealthyServer _ _ _ _ _) as [[db' st'] log2].
  destruct Hh as (_ & Hok & Hthrow). simpl in Hok, Hthrow.
  case_decide as Hf.
  - by destruct (Hthrow Hcool Hf) as (-> & -> & ->).
  - by destruct (Hok Hcool Hf) as (-> & -> & ->).
Qed.

(** C2 (amended).  When the monitor escalates (the check fails,
    the counter reaches the restart threshold and the cooldown is over)
    and the bulk update succeeds, every ONLINE record is UNREACHABLE
    after it and no other record has changed, the restart time is the
    time of the cycle, and the process is set to exit with code 1 after
    1000 ms.  When the bulk update throws, the error is logged and that is
    all: the table and the restart time are as before and no exit is set. *)
Theorem escalation_demotes_then_exits (i : CycleInput) (st : HealthCheckState) :
  let c := healthCheckCycle touch i st in
  healthy c = false ->
  healthCheckFailures st + 1 >= RESTART_THRESHOLD ->
  ~ now i - lastRestartTime st < RESTART_COOLDOWN ->
  escalated c
  /\ (restartFault i <> Some 0%nat ->
      (forall id,
          table_after c !! id
          = (fun h => if decide (status h = ONLINE)
                      then mkHostInstance (organizationId h) (Store.apiKeyId h)
                             UNREACHABLE (touch (updatedAt h))
                      else h) <$> table i !! id)
      /\ lastRestartTime (state_after c) = now i
      /\ ExitAfter 1000 1 ∈ effects c
      /\ exits c = true)
  /\ (restartFault i = Some 0%nat ->
      table_after c = table i
      /\ lastRestartTime (state_after c) = lastRestartTime st
      /\ LogPrepareFailed ∈ effects c
      /\ exits c = false).
Proof.
  cbv zeta. intros Hfail Hthr Hcool.
  destruct (cycle_past_cooldown i st Hfail Hthr Hcool) as (log & Hli & Hle & ->).
  unfold escalated, exits.
  case_decide as Hf; simpl.
  - split; [|split; [done|]].
    + eexists. apply elem_of_app. right. apply list_elem_of_here.
    + intros _. split; [done|]. split; [done|]. split.
      * apply elem_of_app. right. apply list_elem_of_further, list_elem_of_here.
      * by rewrite existsb_app, Hle.
  - split; [|split; [|done]].
    + eexists. apply elem_of_app. right. apply list_elem_of_here.
    + intros _. split; [apply updateMany_lookup|]. split; [done|]. split.
      * apply elem_of_app. right. do 2 apply list_elem_of_further.
        apply list_elem_of_here.
      * rewrite existsb_app. simpl. apply orb_true_r.
Qed.

(** One periodic check keeps the counter equal to the number of
    consecutive failing checks, and calls the restart handler only at
    three or more. *)
Lemma cycle_counts (i : CycleInput) st (results : list bool) :
  healthCheckFailures st = Z.of_nat (consecutive_failures results) ->
  let c := healthCheckCycle touch i st in
  healthCheckFailures (state_after c)
  = Z.of_nat (consecutive_failures (results ++ [healthy c]))
  /\ isServerHealthy (state_after c) = healthy c
  /\ (reached_handler c ->
      (3 <= consecutive_failures (results ++ [healthy c]))%nat).
Proof.
  intros Hst. cbv zeta. rewrite consecutive_failures_snoc.
  destruct (healthy (healthCheckCycle touch i st)) eqn:Hh.
  - destruct (cycle_success i st Hh) as (_ & Hc & _ & Hflag & Hno & _).
    rewrite Hc. split; [|done]. case_bool_decide; lia.
  - destruct (cycle_failure i st Hh) as (log & Hlc & Hli & _ & Heq).
    rewrite Heq. cbv zeta. unfold reached_handler.
    case_bool_decide as Hthr.
    + unfold RESTART_THRESHOLD in Hthr.
      unfold handleUnhealthyServer, db_call.
      repeat case_bool_decide; simpl; (split; [lia|]); (split; [done|]);
        intros _; lia.
    + simpl. split; [lia|]. split; [done|].
      intros (n & [Hin|Hin]); [by apply Hlc in Hin | by apply Hli in Hin].
Qed.

Lemma monitor_counts (cycles : list CycleInput) st (results : list bool) :
  healthCheckFailures st = Z.of_nat (consecutive_failures results) ->
  healthCheckFailures (monitor touch cycles st).2
  = Z.of_nat (consecutive_failures
                (results ++ (healthy <$> (monitor touch cycles st).1)))
  /\ forall k c,
      (monitor touch cycles st).1 !! k = Some c ->
      let so_far := results ++ take (S k) (healthy <$> (monitor touch cycles st).1) in
      healthCheckFailures (state_after c) = Z.of_nat (consecutive_failures so_far)
      /\ isServerHealthy (state_after c) = healthy c
      /\ (reached_handler c -> (3 <= consecutive_failures so_far)%nat).
Proof.
  revert st results. induction cycles as [|i rest IH]; intros st results Hst.
  - simpl. rewrite app_nil_r. split; [done|]. intros k c Hk.
    by rewrite lookup_nil in Hk.
  - simpl. set (c0 := healthCheckCycle touch i st).
    destruct (cycle_counts i st results Hst) as (Hc & Hflag & Hreach).
    fold c0 in Hc, Hflag, Hreach.
    destruct (exits c0).
    + simpl. split; [done|]. intros [|k] c Hk; [|done].
      simpl in Hk. inversion Hk; subst c. simpl. done.
    + destruct (IH (state_after c0) (results ++ [healthy c0]) Hc) as (Hend & Hall).
      destruct (monitor touch rest (state_after c0)) as [cs st'] eqn:Hm.
      simpl in *. split.
      * rewrite Hend. by rewrite <- app_assoc.
      * intros [|k] c Hk; simpl in Hk.
        -- inversion Hk; subst c. simpl. done.
        -- specialize (Hall k c Hk). simpl in Hall.
           rewrite <- app_assoc in Hall. exact Hall.
Qed.

(** Along any run of the monitor, the failure counter is the number of
    consecutive failing checks so far, the initial check at start counting
    as a check, and the restart handler is called only in a cycle whose
    check and the two checks before it failed. *)
Lemma run_counts_consecutive_checks
    (first : CycleInput) (cycles : list CycleInput) :
  let '(results, cs, st) := startServerHealthMonitoring touch first cycles in
  healthCheckFailures st = Z.of_nat (consecutive_failures results)
  /\ (forall k c,
        cs !! k = Some c ->
        let so_far := take (k + 2) results in
        healthCheckFailures (state_after c) = Z.of_nat (consecutive_failures so_far)
        /\ (healthCheckFailures (state_after c) >= RESTART_THRESHOLD
            <-> exists earlier, so_far = earlier ++ [false; false; false])
        /\ (reached_handler c ->
            exists earlier, so_far = earlier ++ [false; false; false])
        /\ (healthy c = true ->
            healthCheckFailures (state_after c) = 0
            /\ isServerHealthy (state_after c) = true
            /\ ~ reached_handler c))
  /\ RESTART_THRESHOLD = 3.
Proof.
  unfold startServerHealthMonitoring, initialCheck.
  destruct (checkServerHealth _ _ _ _) as [b0 log0].
  set (st0 := if b0
              then mkHealthCheckState (healthCheckFailures initial)
                     (lastRestartTime initial) true
              else mkHealthCheckState (healthCheckFailures initial + 1)
                     (lastRestartTime initial) false).
  assert (Hst0 : healthCheckFailures st0 = Z.of_nat (consecutive_failures [b0])).
  { subst st0. by destruct b0. }
  destruct (monitor_counts cycles st0 [b0] Hst0) as (Hend & Hall).
  assert (Hrun : (let '(isHealthy, st1, _) :=
                    if b0
                    then (b0, mkHealthCheckState (healthCheckFailures initial)
                                (lastRestartTime initial) true, log0)
                    else (b0, mkHealthCheckState (healthCheckFailures initial + 1)
                                (lastRestartTime initial) false,
                          log0 ++ [LogInitialCheckFailed]) in
                  let '(cs, st) := monitor touch cycles st1 in
                  (isHealthy :: (healthy <$> cs), cs, st))
                 = (b0 :: (healthy <$> (monitor touch cycles st0).1),
                    (monitor touch cycles st0).1, (monitor touch cycles st0).2)).
  { subst st0. destruct b0; by destruct (monitor touch cycles _). }
  rewrite Hrun. split; [exact Hend|]. split; [|done].
  intros k c Hk. specialize (Hall k c Hk). cbv zeta in *.
  replace (k + 2)%nat with (S (S k)) by lia.
  change (take (S (S k)) (b0 :: (healthy <$> (monitor touch cycles st0).1)))
    with ([b0] ++ take (S k) (healthy <$> (monitor touch cycles st0).1)).
  destruct Hall as (Hc & Hflag & Hreach).
  split; [done|]. split; [|split].
  - rewrite <- three_consecutive_failures, Hc. unfold RESTART_THRESHOLD. lia.
  - intros Hr. by apply three_consecutive_failures, Hreach.
  - intros Hh.
    assert (Hzero : consecutive_failures
              ([b0] ++ take (S k) (healthy <$> (monitor touch cycles st0).1)) = 0%nat).
    { apply (f_equal (fmap healthy)) in Hk as Hk'.
      rewrite <- list_lookup_fmap in Hk'. simpl in Hk'.
      rewrite (take_S_r _ _ _ Hk'), Hh, app_assoc.
      by rewrite consecutive_failures_snoc. }
    split; [lia|]. split; [congruence|].
    intros Hr. apply Hreach in Hr. lia.
Qed.

(** C3 (amended).  Along any run of the monitor, the failure counter is the
    number of consecutive failing checks so far, where the check the
    monitor makes once at start counts like a periodic one: the counter
    reaches the restart threshold 3 exactly on the third consecutive
    failing check.  The restart handler is not called, so no escalation
    attempted, in a cycle unless that check and the two checks before it
    failed; so never in the first periodic cycle, and not before the third
    periodic cycle when the initial check succeeded.  A check that succeeds
    leaves the counter at 0 and the healthy flag set, and does not call
    the handler. *)
Theorem restart_threshold_after_three_consecutive_failures
    (first : CycleInput) (cycles : list CycleInput) :
  let '(results, cs, st) := startServerHealthMonitoring touch first cycles in
  healthCheckFailures st = Z.of_nat (consecutive_failures results)
  /\ (forall k c,
        cs !! k = Some c ->
        let so_far := take (k + 2) results in
        healthCheckFailures (state_after c) = Z.of_nat (consecutive_failures so_far)
        /\ (healthCheckFailures (state_after c) >= RESTART_THRESHOLD
            <-> exists earlier, so_far = earlier ++ [false; false; false])
        /\ (reached_handler c ->
            (exists earlier, so_far = earlier ++ [false; false; false])
            /\ (1 <= k)%nat
            /\ (results !! 0%nat = Some true -> (2 <= k)%nat))
        /\ (healthy c = true ->
            healthCheckFailures (state_after c) = 0
            /\ isServerHealthy (state_after c) = true
            /\ ~ reached_handler c))
  /\ RESTART_THRESHOLD = 3.
Proof.
  pose proof (run_counts_consecutive_checks first cycles) as Hrun.
  destruct (startServerHealthMonitoring touch first cycles) as [[results cs] st].
  destruct Hrun as (Hend & Hall & Hthr).
  split; [exact Hend|]. split; [|exact Hthr].
  intros k c Hk. destruct (Hall k c Hk) as (Hc & Hiff & Hreach & Hsucc).
  cbv zeta in *. split; [exact Hc|]. split; [exact Hiff|]. split; [|exact Hsucc].
  intros Hr. destruct (Hreach Hr) as (earlier & Hso).
  split; [by exists earlier|].
  assert (Hlen : (length earlier + 3 <= k + 2)%nat).
  { apply (f_equal length) in Hso. rewrite length_take, length_app in Hso.
    simpl in Hso. lia. }
  split; [lia|]. intros Hfirst.
  destruct (decide (2 <= k)%nat) as [|Hk2]; [done|]. exfalso.
  assert (k = 1%nat) by lia. subst k.
  destruct earlier; [|simpl in Hlen; lia]. simpl in Hso.
  assert (Hf : take 3 results !! 0%nat = Some false) by by rewrite Hso.
  rewrite lookup_take_lt in Hf by lia. congruence.
Qed.

End MonitorFacts.

(** Counterexample to C3 as stated: the check at start fails (here the
    database probe throws) and so do the first two periodic checks; the
    restart handler is called, and the restart made, in the second periodic
    cycle, after two failing periodic cycles. *)
Lemma restart_on_second_periodic_cycle_counterexample :
  let failing t :=
    ServerHealth.mkCycleInput t
      {[ "h1"%string := Store.mkHostInstance "org" "k1" Store.ONLINE 0 ]}
      ∅ (Some 0%nat) None in
  let run :=
    ServerHealth.startServerHealthMonitoring (fun t => t) (failing 10000000)
      [failing 10300000; failing 10600000] in
  run.1.1 = [false; false; false]
  /\ ServerHealth.effects <$> run.1.2
     = [[ServerHealth.LogDatabaseCheckFailed; ServerHealth.LogCheckFailed 2];
        [ServerHealth.LogDatabaseCheckFailed; ServerHealth.LogCheckFailed 3;
         ServerHealth.LogInitiatingRestart 3; ServerHealth.LogExiting;
         ServerHealth.ExitAfter 1000 1]]
  /\ ServerHealth.healthCheckFailures run.2 = ServerHealth.RESTART_THRESHOLD.
Proof. cbv zeta. repeat split; by vm_compute. Qed.

Lemma escalation_demotes_then_exits_witness :
  let i := ServerHealth.mkCycleInput 10000000
             {[ "h1"%string := Store.mkHostInstance "org" "k1" Store.ONLINE 0 ]}
             ∅ (Some 0%nat) None in
  let st := ServerHealth.mkHealthCheckState 2 0 false in
  let c := ServerHealth.healthCheckCycle (fun t => t) i st in
  ServerHealth.healthy c = false
  /\ 2 + 1 >= ServerHealth.RESTART_THRESHOLD
  /\ ~ 10000000 - 0 < ServerHealth.RESTART_COOLDOWN
  /\ ServerHealth.escalated c
  /\ ServerHealth.table_after c !! "h1"%string
     = Some (Store.mkHostInstance "org" "k1" Store.UNREACHABLE 0)
  /\ ServerHealth.effects c
     = [ServerHealth.LogDatabaseCheckFailed; ServerHealth.LogCheckFailed 3;
        ServerHealth.LogInitiatingRestart 3; ServerHealth.LogExiting;
        ServerHealth.ExitAfter 1000 1].
Proof.
  cbv zeta.
  assert (Hthr : 2 + 1 >= ServerHealth.RESTART_THRESHOLD) by by vm_compute.
  assert (Hcool : ~ 10000000 - 0 < ServerHealth.RESTART_COOLDOWN) by by vm_compute.
  split; [reflexivity|]. split; [exact Hthr|]. split; [exact Hcool|].
  split; [|split; by vm_compute].
  exact (proj1 (escalation_demotes_then_exits (fun t => t)
    (ServerHealth.mkCycleInput 10000000
       {[ "h1"%string := Store.mkHostInstance "org" "k1" Store.ONLINE 0 ]}
       ∅ (Some 0%nat) None)
    (ServerHealth.mkHealthCheckState 2 0 false) eq_refl Hthr Hcool)).
Defined.

(** Counterexample to C2 as stated: when the bulk update throws (here the
    database is down, so the probe of the check fails too), the escalation
    is attempted and then given up: no exit is set, the restart time is not
    recorded and the ONLINE record stays ONLINE. *)
Lemma restart_given_up_when_update_throws_counterexample :
  let i := ServerHealth.mkCycleInput 10000000
             {[ "h1"%string := Store.mkHostInstance "org" "k1" Store.ONLINE 0 ]}
             ∅ (Some 0%nat) (Some 0%nat) in
  let st := ServerHealth.mkHealthCheckState 2 0 false in
  let c := ServerHealth.healthCheckCycle (fun t => t) i st in
  ServerHealth.healthy c = false
  /\ ServerHealth.healthCheckFailures (ServerHealth.state_after c)
     >= ServerHealth.RESTART_THRESHOLD
  /\ ~ 10000000 - 0 < ServerHealth.RESTART_COOLDOWN
  /\ ServerHealth.effects c
     = [ServerHealth.LogDatabaseCheckFailed; ServerHealth.LogCheckFailed 3;
        ServerHealth.LogInitiatingRestart 3; ServerHealth.LogPrepareFailed]
  /\ ServerHealth.exits c = false
  /\ ServerHealth.lastRestartTime (ServerHealth.state_after c) = 0
  /\ ServerHealth.table_after c !! "h1"%string
     = Some (Store.mkHostInstance "org" "k1" Store.ONLINE 0).
Proof. cbv zeta. repeat split; by vm_compute. Qed.

(** * Further properties *)

(** ** The ping-failure tracker and the connection counters *)

Section TrackerFacts.
Import ConnectionMonitor TrackerSpec.

Lemma map_get_None_keys k (m : PingFailureMap) :
  map_get k m = None <-> k ∉ m.*1.
Proof.
  induction m as [|[k' v'] m IH].
  - simpl. split; [intros _; apply not_elem_of_nil | done].
  - rewrite fmap_cons, not_elem_of_cons. simpl. case_bool_decide as Hk.
    + split; [done | intros [Hne _]; congruence].
    + rewrite IH. split; [by split | tauto].
Qed.

Lemma map_set_fresh k v (m : PingFailureMap) :
  map_get k m = None -> map_set k v m = m ++ [(k, v)].
Proof.
  induction m as [|[k' v'] m IH]; simpl; [done|].
  case_bool_decide as Hk; [done|]. intros H. by rewrite IH.
Qed.

Lemma map_set_elem k v (m : PingFailureMap) k' f' :
  (k', f') ∈ map_set k v m -> (k', f') = (k, v) \/ (k', f') ∈ m.
Proof.
  induction m as [|[k0 v0] m IH]; simpl.
  - intros ->%list_elem_of_singleton. by left.
  - case_bool_decide as Hk.
    + intros [->|Hin]%elem_of_cons; [by left|]. right. by apply list_elem_of_further.
    + intros [->|Hin]%elem_of_cons; [right; apply list_elem_of_here|].
      destruct (IH Hin) as [->|Hm]; [by left|]. right. by apply list_elem_of_further.
Qed.

Lemma map_delete_filter k (m : list (string * PingFailure)) :
  map_delete k m = filter (fun p : string * PingFailure => p.1 ≠ k) m.
Proof.
  induction m as [|[k' v'] m IH]; [done|].
  rewrite filter_cons. cbn [map_delete fst]. case_bool_decide as Hk.
  - rewrite decide_False by tauto. done.
  - rewrite decide_True by done. by rewrite IH.
Qed.

Lemma well_formed_set k v (m : PingFailureMap) :
  well_formed m -> instanceId v = k -> failureCount v >= 1 ->
  well_formed (map_set k v m).
Proof.
  intros [Hnd Hent] Hid Hcount. split.
  - destruct (map_get k m) as [v0|] eqn:Hget.
    + by rewrite (map_set_keys k v v0 m Hget).
    + rewrite (map_set_fresh k v m Hget), fmap_app. simpl.
      apply NoDup_app. split; [done|]. split; [|apply NoDup_singleton].
      intros x Hx ->%list_elem_of_singleton. by apply map_get_None_keys in Hget.
  - intros k' f' Hin. apply map_set_elem in Hin as [Heq|Hin]; [|by apply Hent].
    by inversion Heq; subst.
Qed.

Lemma well_formed_delete k (m : PingFailureMap) :
  well_formed m -> well_formed (map_delete k m).
Proof.
  intros [Hnd Hent]. rewrite map_delete_filter. split.
  - eapply sublist_NoDup; [exact Hnd|]. apply fmap_sublist, sublist_filter.
  - intros k' f' Hin. apply list_elem_of_filter in Hin as [_ Hin]. by apply Hent.
Qed.

Lemma well_formed_step (o : Op) (s : State) :
  well_formed (pingFailures s) -> well_formed (pingFailures (step o s)).
Proof.
  intros Hwf. destruct o as [[]| |id ty org usr now cur|id|now]; simpl; try done.
  - destruct (map_get id (pingFailures s)) as [existing|] eqn:Hget.
    + apply well_formed_set; [done| |]; simpl.
      * apply map_get_elem_of in Hget. by apply Hwf in Hget as [? _].
      * apply map_get_elem_of in Hget. apply Hwf in Hget as [_ ?]. lia.
    + apply well_formed_set; [done|done|]. simpl. lia.
  - by apply well_formed_delete.
Qed.

(** X3.  Along any run of the module from its load, the ping-failure map
    holds one entry per identifier, each filed under its own [instanceId]
    and with a failure count of at least 1. *)
Theorem tracker_entries_well_formed (ops : list Op) (t0 : Z) :
  well_formed (pingFailures (run ops (initial t0))).
Proof.
  assert (Hgen : forall s, well_formed (pingFailures s) ->
                           well_formed (pingFailures (run ops s))).
  { induction ops as [|o ops IH]; intros s Hs; [done|].
    change (run (o :: ops) s) with (run ops (step o s)).
    by apply IH, well_formed_step. }
  apply Hgen. split; [apply NoDup_nil_2|]. intros k f Hin.
  by apply elem_of_nil in Hin.
Qed.

Lemma failures_of_cons id o ops :
  failures_of id (o :: ops)
  = ((match o with
      | OpRecordPingFailure id' _ _ _ _ _ => if bool_decide (id' = id) then 1 else 0
      | _ => 0
      end) + failures_of id ops)%nat.
Proof.
  unfold failures_of. rewrite filter_cons.
  destruct o as [| |id' ? ? ? ? ?| |]; try (by rewrite decide_False).
  destruct (bool_decide (id' = id));
    [by rewrite decide_True | by rewrite decide_False].
Qed.

Lemma count_of_step id (o : Op) (s : State) :
  o ≠ OpClearPingFailure id ->
  count_of id (step o s)
  = count_of id s
    + Z.of_nat (match o with
                | OpRecordPingFailure id' _ _ _ _ _ =>
                    if bool_decide (id' = id) then 1 else 0
                | _ => 0
                end).
Proof.
  intros Hne. unfold count_of.
  destruct o as [[]| |id' ty org usr now cur|id'|now]; simpl; try lia.
  - case_bool_decide as Hid.
    + subst id'. destruct (map_get id (pingFailures s)) as [existing|] eqn:Hget;
        rewrite map_get_set_eq; simpl; lia.
    + destruct (map_get id' (pingFailures s));
        rewrite map_get_set_ne by done; lia.
  - rewrite map_get_delete_ne by congruence. lia.
Qed.

(** X2.  The failure count the tracker holds for an identifier is the
    number of ping failures recorded for it since it was last cleared: over
    any operations that do not clear the identifier the count grows by the
    failures recorded for it, whatever else happens to other identifiers,
    and counted from a clear it is exactly their number. *)
Theorem failure_count_since_clear (id : string) (ops : list Op) (s : State) :
  (forall o, o ∈ ops -> o ≠ OpClearPingFailure id) ->
  count_of id (run ops s) = count_of id s + Z.of_nat (failures_of id ops)
  /\ count_of id (run (OpClearPingFailure id :: ops) s)
     = Z.of_nat (failures_of id ops).
Proof.
  assert (Hgen : forall s,
    (forall o, o ∈ ops -> o ≠ OpClearPingFailure id) ->
    count_of id (run ops s) = count_of id s + Z.of_nat (failures_of id ops)).
  { clear s. induction ops as [|o ops IH]; intros s Hno.
    - unfold failures_of. simpl. lia.
    - change (run (o :: ops) s) with (run ops (step o s)).
      rewrite IH by (intros o' Ho'; apply Hno; by right).
      rewrite count_of_step by (apply Hno; by left).
      rewrite failures_of_cons. lia. }
  intros Hno. split; [by apply Hgen|].
  change (run (OpClearPingFailure id :: ops) s)
    with (run ops (clearPingFailure id s)).
  rewrite Hgen by done. unfold count_of at 1. simpl.
  rewrite map_get_delete_eq. lia.
Qed.

Lemma run_totals (ops : list Op) (s : State) :
  totalConnectionsCreated (run ops s)
  - totalHostConnections (run ops s) - totalClientConnections (run ops s)
  = totalConnectionsCreated s - totalHostConnections s - totalClientConnections s
  /\ totalConnectionsClosed (run ops s)
     = totalConnectionsClosed s + Z.of_nat (closed_of ops).
Proof.
  revert s. induction ops as [|o ops IH]; intros s.
  - unfold closed_of. simpl. lia.
  - change (run (o :: ops) s) with (run ops (step o s)).
    destruct (IH (step o s)) as [-> ->].
    unfold closed_of in *. rewrite filter_cons.
    destruct o as [[]| | | |]; simpl; split; lia.
Qed.

(** X4.  Along any run of the module from its load, the total of
    connections created is the sum of the two per-kind counters, and the
    total closed is the number of close reports; the hourly report prints
    these and their difference as the active count, and writes nothing but
    the time of the report. *)
Theorem connection_totals_add_up (ops : list Op) (t0 now : Z) :
  let s := run ops (initial t0) in
  totalConnectionsCreated s = totalHostConnections s + totalClientConnections s
  /\ totalConnectionsClosed s = Z.of_nat (closed_of ops)
  /\ (logConnectionStats now s).2
     = [ConnectionStatistics
          (Z.of_nat (created_of host ops) + Z.of_nat (created_of client ops))
          (Z.of_nat (closed_of ops))
          (Z.of_nat (created_of host ops) + Z.of_nat (created_of client ops)
           - Z.of_nat (closed_of ops))]
  /\ (logConnectionStats now s).1
     = mkState (totalConnectionsCreated s) (totalConnectionsClosed s)
         (totalHostConnections s) (totalClientConnections s) now
         (pingFailures s) (lastPingFailureLogTime s).
Proof.
  cbv zeta. destruct (run_totals ops (initial t0)) as [Hsum Hclosed].
  pose proof (run_counts host ops (initial t0)) as Hh.
  pose proof (run_counts client ops (initial t0)) as Hc.
  simpl in *.
  assert (Hcreated : totalConnectionsCreated (run ops (initial t0))
                     = Z.of_nat (created_of host ops)
                       + Z.of_nat (created_of client ops)) by lia.
  split; [lia|]. split; [lia|]. split; [|done].
  unfold logConnectionStats. simpl. rewrite Hcreated.
  by replace (totalConnectionsClosed (run ops (initial t0)))
    with (Z.of_nat (closed_of ops)) by lia.
Qed.

Lemma map_set_nonempty k v (m : PingFailureMap) : map_set k v m ≠ [].
Proof. destruct m as [|[k' v'] m]; simpl; [done|]. by case_bool_decide. Qed.

Lemma logPingFailures_nonempty (m : PingFailureMap) :
  m ≠ [] ->
  exists hostFailures clientFailures rest,
    logPingFailures m
    = PingFailureStatistics (Z.of_nat (length m)) hostFailures clientFailures :: rest.
Proof.
  intros Hm. unfold logPingFailures.
  rewrite bool_decide_eq_false_2 by (by destruct m). eauto.
Qed.

(** The two cases of [recordPingFailure]: the flush is due, or not. *)
Lemma recordPingFailure_flush_cases
    (s : State) (id : string) (ty : ConnectionType) (org usr : option string)
    (now cur : Z) :
  let r := recordPingFailure id ty org usr now cur s in
  (cur - lastPingFailureLogTime s > 300000 ->
     lastPingFailureLogTime r.1 = cur
     /\ exists h c rest,
          r.2 = PingFailureStatistics (Z.of_nat (length (pingFailures r.1))) h c
                :: rest)
  /\ (~ cur - lastPingFailureLogTime s > 300000 ->
      r.2 = [] /\ lastPingFailureLogTime r.1 = lastPingFailureLogTime s).
Proof.
  cbv zeta. unfold recordPingFailure, PING_FAILURE_LOG_INTERVAL. simpl.
  change (5 * 60 * 1000) with 300000. split; intros Hdue.
  - rewrite !bool_decide_eq_true_2 by done. split; [done|].
    apply logPingFailures_nonempty.
    destruct (map_get id (pingFailures s)); apply map_set_nonempty.
  - by rewrite !bool_decide_eq_false_2.
Qed.

(** Operations within 5 minutes of the last flush: none of them flushes,
    and none of them, of whatever kind, moves the time of the last flush. *)
Lemma quiet_run (ops : list Op) (s : State) :
  recorded_by (lastPingFailureLogTime s + 300000) ops ->
  flushes ops s = []
  /\ lastPingFailureLogTime (run ops s) = lastPingFailureLogTime s.
Proof.
  revert s. induction ops as [|o ops IH]; intros s Hby; [done|].
  change (run (o :: ops) s) with (run ops (step o s)). cbn [flushes].
  assert (Hstep : flush_of o s = []
                  /\ lastPingFailureLogTime (step o s) = lastPingFailureLogTime s).
  { destruct o as [[]| |id ty org usr now cur| |]; try done.
    simpl. apply recordPingFailure_flush_cases.
    specialize (Hby id ty org usr now cur ltac:(left)). lia. }
  destruct Hstep as [-> Hsame].
  destruct (IH (step o s)) as [-> ->]; [|done].
  rewrite Hsame. intros id ty org usr now cur Hin.
  apply (Hby id ty org usr now cur). by right.
Qed.

(** X5.  [recordPingFailure] flushes the ping-failure report exactly when
    more than the log interval (5 minutes) has passed since the time it
    keeps of the last flush; a flush sets that time to the current time and
    always carries the statistics record, as the map then holds at least
    the entry just recorded; a call that does not flush leaves the time.
    No other operation of the module flushes or writes that time.  So
    after a flush, over any operations of the module that follow, no call
    that reads a clock within the next 5 minutes flushes again, and the
    time of the last flush stays. *)
Theorem ping_flush_rate_limited
    (s : State) (id id2 : string) (ty ty2 : ConnectionType)
    (org usr org2 usr2 : option string) (now currentTime now2 currentTime2 : Z)
    (ops : list Op) :
  let r1 := recordPingFailure id ty org usr now currentTime s in
  let r2 := recordPingFailure id2 ty2 org2 usr2 now2 currentTime2 r1.1 in
  (r1.2 ≠ [] <-> currentTime - lastPingFailureLogTime s > 300000)
  /\ (r1.2 ≠ [] ->
      lastPingFailureLogTime r1.1 = currentTime
      /\ exists hostFailures clientFailures rest,
           r1.2 = PingFailureStatistics (Z.of_nat (length (pingFailures r1.1)))
                    hostFailures clientFailures :: rest)
  /\ (r1.2 = [] -> lastPingFailureLogTime r1.1 = lastPingFailureLogTime s)
  /\ (r1.2 ≠ [] -> currentTime2 - currentTime <= 300000 -> r2.2 = [])
  /\ (forall o, flush_of o s ≠ [] \/ lastPingFailureLogTime (step o s)
                                     ≠ lastPingFailureLogTime s ->
                exists id' ty' org' usr' now' cur',
                  o = OpRecordPingFailure id' ty' org' usr' now' cur'
                  /\ cur' - lastPingFailureLogTime s > 300000)
  /\ (r1.2 ≠ [] ->
      recorded_by (currentTime + 300000) ops ->
      flushes ops r1.1 = []
      /\ lastPingFailureLogTime (run ops r1.1) = currentTime).
Proof.
  cbv zeta.
  destruct (recordPingFailure_flush_cases s id ty org usr now currentTime)
    as [Hdue Hnot].
  assert (Hops : forall o,
    flush_of o s ≠ [] \/ lastPingFailureLogTime (step o s) ≠ lastPingFailureLogTime s ->
    exists id' ty' org' usr' now' cur',
      o = OpRecordPingFailure id' ty' org' usr' now' cur'
      /\ cur' - lastPingFailureLogTime s > 300000).
  { intros o Ho. destruct o as [[]| |id' ty' org' usr' now' cur'| |];
      try (by destruct Ho).
    exists id', ty', org', usr', now', cur'. split; [done|].
    destruct (decide (cur' - lastPingFailureLogTime s > 300000)) as [|Hn]; [done|].
    destruct (recordPingFailure_flush_cases s id' ty' org' usr' now' cur')
      as [_ Hq]. destruct (Hq Hn) as [Hnil Hsame]. simpl in Ho.
    by destruct Ho. }
  destruct (decide (currentTime - lastPingFailureLogTime s > 300000)) as [Hd|Hd].
  - destruct (Hdue Hd) as (Htime & h & c & rest & Heq).
    split; [split; [done | intros _; by rewrite Heq]|].
    split; [intros _; split; [done | eauto]|].
    split; [intros Hnil; by rewrite Heq in Hnil|].
    split; [|split; [exact Hops|]].
    + intros _ Hsoon.
      destruct (recordPingFailure_flush_cases
                  (recordPingFailure id ty org usr now currentTime s).1
                  id2 ty2 org2 usr2 now2 currentTime2) as [_ Hnot2].
      apply Hnot2. rewrite Htime. lia.
    + intros _ Hby.
      destruct (quiet_run ops (recordPingFailure id ty org usr now currentTime s).1)
        as [Hquiet Hkeep]; [by rewrite Htime|].
      split; [exact Hquiet | by rewrite Hkeep].
  - destruct (Hnot Hd) as [Hnil Htime].
    split; [split; [intros H; by rewrite Hnil in H | done]|].
    split; [intros H; by rewrite Hnil in H|].
    split; [done|]. split; [intros H; by rewrite Hnil in H|].
    split; [exact Hops|]. intros H. by rewrite Hnil in H.
Qed.

Lemma flush_loop_kinds l acc :
  byHost (fold_left flush_step l acc)
  = byHost acc + Z.of_nat (length (filter (fun f => type f = host) l))
  /\ byClient (fold_left flush_step l acc)
     = byClient acc + Z.of_nat (length (filter (fun f => type f = client) l)).
Proof.
  revert acc. induction l as [|f l IH]; intros acc; simpl; [lia|].
  destruct (IH (flush_step acc f)) as [-> ->].
  rewrite !filter_cons. unfold flush_step. simpl.
  destruct (type f); simpl; split; lia.
Qed.

(** X6.  The flush pass reports nothing for an empty map; for any other
    map its first record gives the size of the map and, of its entries,
    how many are of kind host and how many of kind client, which add up to
    the size. *)
Theorem flush_statistics_partition (m : PingFailureMap) :
  logPingFailures [] = []
  /\ (m ≠ [] ->
      exists rest,
        logPingFailures m
        = PingFailureStatistics (Z.of_nat (length m))
            (Z.of_nat (entries_of_kind host m))
            (Z.of_nat (entries_of_kind client m)) :: rest)
  /\ (entries_of_kind host m + entries_of_kind client m = length m)%nat.
Proof.
  split; [done|]. split.
  - intros Hm. unfold logPingFailures.
    rewrite bool_decide_eq_false_2 by (by destruct m).
    unfold flush_pass, entries_of_kind.
    destruct (flush_loop_kinds (map_values m) (mkFlushAcc 0 0 [])) as [-> ->].
    simpl. eauto.
  - unfold entries_of_kind, map_values.
    rewrite <- (length_fmap snd m).
    induction (m.*2) as [|f l IH]; [done|].
    rewrite !filter_cons.
    destruct (decide (type f = host)) as [Hh|Hh],
             (decide (type f = client)) as [Hc|Hc]; simpl; try lia.
    + congruence.
    + by destruct (type f).
Qed.

End TrackerFacts.

Lemma failure_count_since_clear_witness :
  let ops :=
    [ConnectionMonitor.OpRecordPingFailure "h1" ConnectionMonitor.host None None 10 10;
     ConnectionMonitor.OpConnectionCreated ConnectionMonitor.host;
     ConnectionMonitor.OpRecordPingFailure "h2" ConnectionMonitor.client None None 20 20;
     ConnectionMonitor.OpClearPingFailure "h2";
     ConnectionMonitor.OpRecordPingFailure "h1" ConnectionMonitor.client None None 30 30] in
  (forall o, o ∈ ops -> o ≠ ConnectionMonitor.OpClearPingFailure "h1")
  /\ TrackerSpec.count_of "h1"
       (ConnectionMonitor.run ops (ConnectionMonitor.initial 0)) = 2
  /\ ConnectionMonitor.map_get "h1"
       (ConnectionMonitor.pingFailures
          (ConnectionMonitor.run ops (ConnectionMonitor.initial 0)))
     = Some (ConnectionMonitor.mkPingFailure "h1" ConnectionMonitor.host
               None None 2 10 30).
Proof.
  cbv zeta.
  assert (Hno : forall o,
    o ∈ [ConnectionMonitor.OpRecordPingFailure "h1" ConnectionMonitor.host None None 10 10;
         ConnectionMonitor.OpConnectionCreated ConnectionMonitor.host;
         ConnectionMonitor.OpRecordPingFailure "h2" ConnectionMonitor.client None None 20 20;
         ConnectionMonitor.OpClearPingFailure "h2";
         ConnectionMonitor.OpRecordPingFailure "h1" ConnectionMonitor.client None None 30 30]
    -> o ≠ ConnectionMonitor.OpClearPingFailure "h1").
  { intros o Ho. repeat (apply elem_of_cons in Ho as [->|Ho]; [discriminate|]).
    by apply elem_of_nil in Ho. }
  split; [exact Hno|]. split; [|reflexivity].
  exact (proj1 (failure_count_since_clear "h1" _ (ConnectionMonitor.initial 0) Hno)).
Defined.

(** ** The liveness sweep: settled tables, repeated runs, faults *)

Section SweepMoreFacts.
Import Store HostStatusCheck SweepSpec.

Lemma filter_none {A : Type} (P : A -> Prop) `{!forall x, Decision (P x)} (l : list A) :
  (forall x, x ∈ l -> ~ P x) -> filter P l = [].
Proof.
  induction l as [|x l IH]; intros Hl; [done|].
  rewrite filter_cons, decide_False by (apply Hl; left).
  apply IH. intros y Hy. apply Hl. by right.
Qed.

Lemma sweep_settles t_update t_delete (db : Table) :
  settled t_update t_delete
    (table_after (checkForUnreachableHosts None t_update t_delete db)).
Proof.
  intros id h' Hafter. rewrite sweep_table in Hafter.
  destruct (db !! id) as [h|]; [|done]. cbv zeta in Hafter.
  destruct (decide (old_terminal t_delete _)) as [|Hold]; [done|].
  inversion Hafter; subst h'. split; [|done].
  destruct (decide (stale_online t_update h)) as [_|Hs]; [|done].
  unfold stale_online. simpl. intros [? _]. done.
Qed.

Lemma sweep_of_settled t_update t_delete (db : Table) :
  settled t_update t_delete db ->
  checkForUnreachableHosts None t_update t_delete db = mkSweep db [] [] [].
Proof.
  intros Hset.
  assert (Hmark : sql_mark_unreachable t_update db = (db, [])).
  { unfold sql_mark_unreachable. f_equal.
    - apply map_eq. intros id. rewrite lookup_fmap.
      destruct (db !! id) as [h|] eqn:Hdb; [|done]. simpl.
      by rewrite decide_False by (by apply (Hset id h)).
    - unfold returning. rewrite filter_none; [done|].
      intros [id h] Hin. apply elem_of_map_to_list in Hin. by apply (Hset id h). }
  assert (Hdel : sql_delete_old t_delete db = (db, [])).
  { unfold sql_delete_old. f_equal.
    - apply map_eq. intros id. destruct (db !! id) as [h|] eqn:Hdb.
      + apply map_lookup_filter_Some. split; [done|]. by apply (Hset id h).
      + apply map_lookup_filter_None. by left.
    - unfold returning. rewrite filter_none; [done|].
      intros [id h] Hin. apply elem_of_map_to_list in Hin. by apply (Hset id h). }
  unfold checkForUnreachableHosts. rewrite !db_call_None, Hmark.
  cbn iota beta. rewrite !db_call_None, Hdel. done.
Qed.

(** X7.  The sweep is idempotent: run again with the same two database
    times on the table a run without faults has left, it changes nothing,
    returns no rows from either statement and logs nothing. *)
Theorem sweep_idempotent (t_update t_delete : Z) (db : Table) :
  let db' := table_after (checkForUnreachableHosts None t_update t_delete db) in
  checkForUnreachableHosts None t_update t_delete db' = mkSweep db' [] [] [].
Proof. cbv zeta. apply sweep_of_settled, sweep_settles. Qed.

(** X9.  After a sweep without faults no record is left behind by either
    statement: every record still ONLINE was updated within the liveness
    timeout of the update statement's time, and every record UNREACHABLE or
    OFFLINE was updated within the retention window of the delete
    statement's time. *)
Theorem sweep_leaves_only_fresh_records
    (t_update t_delete : Z) (db : Table) (id : string) (h : HostInstance) :
  table_after (checkForUnreachableHosts None t_update t_delete db) !! id = Some h ->
  (status h = ONLINE -> t_update - 60000 <= updatedAt h)
  /\ (status h = UNREACHABLE \/ status h = OFFLINE ->
      t_delete - 21600000 <= updatedAt h).
Proof.
  intros Hafter. destruct (sweep_settles t_update t_delete db id h Hafter)
    as [Hstale Hold].
  unfold stale_online, LIVENESS_TIMEOUT in Hstale.
  unfold old_terminal, RETENTION_WINDOW in Hold.
  split; intros Hst.
  - destruct (decide (t_update - 60000 <= updatedAt h)); [done|].
    exfalso. apply Hstale. split; [done | lia].
  - destruct (decide (t_delete - 21600000 <= updatedAt h)); [done|].
    exfalso. apply Hold. split; [done | lia].
Qed.

(** X8.  A sweep in which database call number [n] throws logs the failure
    and deletes nothing.  When the throw is in the first count or in the
    update statement the table is as it was; when it is in the second count
    or in the delete statement the table holds the marking of the update
    statement, which is not undone.  A fault index past the four calls of
    the sweep is no fault. *)
Theorem sweep_fault_keeps_records (n : nat) (t_update t_delete : Z) (db : Table) :
  let sw := checkForUnreachableHosts (Some n) t_update t_delete db in
  ((n < 4)%nat ->
     deleteResult sw = []
     /\ last (logged sw) = Some FailedChecking
     /\ forall id, table_after sw !! id = None <-> db !! id = None)
  /\ ((n < 2)%nat -> table_after sw = db /\ updateResult sw = [])
  /\ ((2 <= n < 4)%nat ->
      table_after sw = (sql_mark_unreachable t_update db).1
      /\ updateResult sw = (sql_mark_unreachable t_update db).2)
  /\ ((4 <= n)%nat -> sw = checkForUnreachableHosts None t_update t_delete db).
Proof.
  cbv zeta.
  assert (Hmarked : forall id,
    (sql_mark_unreachable t_update db).1 !! id = None <-> db !! id = None).
  { intros id. rewrite mark_lookup. by destruct (db !! id). }
  unfold checkForUnreachableHosts, db_call.
  destruct (sql_mark_unreachable t_update db) as [db1 marked] eqn:Hm.
  simpl in Hmarked.
  destruct n as [|[|[|[|n]]]]; simpl.
  - repeat split; try done; lia.
  - repeat split; try done; lia.
  - repeat split; try done; try lia; by apply Hmarked.
  - destruct (sql_delete_old t_delete db1) as [db2 deleted].
    split; [intros _; split; [done|]; split; [|apply Hmarked]|].
    + by rewrite last_snoc.
    + repeat split; try done; lia.
  - destruct (sql_delete_old t_delete db1) as [db2 deleted].
    repeat split; try done; lia.
Qed.

End SweepMoreFacts.

Lemma sweep_leaves_only_fresh_records_witness :
  let db : Store.Table :=
    {[ "h1"%string := Store.mkHostInstance "org" "k1" Store.ONLINE 25199999;
       "h2"%string := Store.mkHostInstance "org" "k2" Store.ONLINE 25000000;
       "h3"%string := Store.mkHostInstance "org" "k3" Store.OFFLINE 0 ]} in
  let db' :=
    HostStatusCheck.table_after
      (HostStatusCheck.checkForUnreachableHosts None 25200000 25200001 db) in
  db' !! "h2"%string
  = Some (Store.mkHostInstance "org" "k2" Store.UNREACHABLE 25000000)
  /\ db' !! "h3"%string = None
  /\ (Store.UNREACHABLE = Store.UNREACHABLE \/ Store.UNREACHABLE = Store.OFFLINE ->
      25200001 - 21600000 <= 25000000).
Proof.
  cbv zeta.
  assert (Hafter :
    HostStatusCheck.table_after
      (HostStatusCheck.checkForUnreachableHosts None 25200000 25200001
         ({[ "h1"%string := Store.mkHostInstance "org" "k1" Store.ONLINE 25199999;
             "h2"%string := Store.mkHostInstance "org" "k2" Store.ONLINE 25000000;
             "h3"%string := Store.mkHostInstance "org" "k3" Store.OFFLINE 0 ]}
          : Store.Table))
      !! "h2"%string
    = Some (Store.mkHostInstance "org" "k2" Store.UNREACHABLE 25000000))
    by by vm_compute.
  split; [exact Hafter|]. split; [by vm_compute|].
  exact (proj2 (sweep_leaves_only_fresh_records 25200000 25200001 _ _ _ Hafter)).
Defined.

(** ** The reconciler: partial batches, repeated runs *)

Section ReconcilerMoreFacts.
Import Store ProcessVars AutoReconnect ReconcilerSpec.

Variable touch : Z -> Z.

(** The loop under any fault: however it ends, each row it was to visit is
    either resolved or as it was, and every other record is as it was. *)
Lemma reset_loop_any fault now connectedHosts hosts st st' :
  NoDup hosts.*1 ->
  (forall id h, (id, h) ∈ hosts -> loop_db st !! id = Some h) ->
  reset_loop touch fault now connectedHosts hosts st = inl st'
  \/ reset_loop touch fault now connectedHosts hosts st = inr st' ->
  (forall id, id ∉ hosts.*1 -> loop_db st' !! id = loop_db st !! id)
  /\ (forall host, host ∈ hosts ->
        loop_db st' !! host.1 = resolved touch now connectedHosts host
        \/ loop_db st' !! host.1 = Some host.2).
Proof.
  revert st. induction hosts as [|[id0 h0] rest IH]; intros st Hnd Hin Hrun.
  - simpl in Hrun. destruct Hrun as [Hrun|Hrun]; [done|]. inversion Hrun; subst.
    split; [done|]. intros host Hhost. by apply elem_of_nil in Hhost.
  - rewrite fmap_cons in Hnd. apply NoDup_cons in Hnd as [Hfresh Hnd].
    simpl in Hfresh.
    assert (Hdb0 : loop_db st !! id0 = Some h0) by (apply Hin; left).
    assert (Hstop : st' = st \/ loop_db st' = loop_db st ->
      (forall id, id ∉ ((id0, h0) :: rest).*1 -> loop_db st' !! id = loop_db st !! id)
      /\ (forall host, host ∈ (id0, h0) :: rest ->
            loop_db st' !! host.1 = resolved touch now connectedHosts host
            \/ loop_db st' !! host.1 = Some host.2)).
    { intros Heq. assert (Hsame : loop_db st' = loop_db st) by (by destruct Heq as [->|]).
      rewrite Hsame. split; [done|]. intros [id h] Hhost. right. by apply Hin. }
    assert (Hstep : forall st1,
      (forall id, id ≠ id0 -> loop_db st1 !! id = loop_db st !! id) ->
      (loop_db st1 !! id0 = resolved touch now connectedHosts (id0, h0)
       \/ loop_db st1 !! id0 = Some h0) ->
      reset_loop touch fault now connectedHosts rest st1 = inl st'
      \/ reset_loop touch fault now connectedHosts rest st1 = inr st' ->
      (forall id, id ∉ ((id0, h0) :: rest).*1 -> loop_db st' !! id = loop_db st !! id)
      /\ (forall host, host ∈ (id0, h0) :: rest ->
            loop_db st' !! host.1 = resolved touch now connectedHosts host
            \/ loop_db st' !! host.1 = Some host.2)).
    { intros st1 Hother Hthis Hrest.
      assert (Hin1 : forall id h, (id, h) ∈ rest -> loop_db st1 !! id = Some h).
      { intros id h Hidh. rewrite Hother.
        - apply Hin. by right.
        - intros ->. apply Hfresh. apply list_elem_of_fmap. by exists (id0, h). }
      destruct (IH st1 Hnd Hin1 Hrest) as (Hout & Hres). split.
      - intros id Hid. rewrite fmap_cons in Hid.
        apply not_elem_of_cons in Hid as [Hne Hid].
        rewrite Hout by done. by apply Hother.
      - intros host [->|Hhost]%elem_of_cons.
        + simpl. by rewrite Hout.
        + by apply Hres. }
    simpl in Hrun. unfold resolved in Hstep. simpl in Hstep.
    destruct (bool_decide (now - updatedAt h0 > HOST_UNREACHABLE_THRESHOLD)).
    + destruct (apiKeyHasNewConnection connectedHosts (id0, h0)).
      * unfold db_call, prisma_delete in Hrun. rewrite Hdb0 in Hrun.
        case_bool_decide.
        -- apply Hstop. right. destruct Hrun as [Hrun|Hrun]; by inversion Hrun.
        -- eapply Hstep; [| |exact Hrun]; simpl.
           ++ intros id Hne. by rewrite lookup_delete_ne.
           ++ left. by rewrite lookup_delete_eq.
      * unfold db_call, prisma_update in Hrun. rewrite Hdb0 in Hrun.
        case_bool_decide.
        -- apply Hstop. right. destruct Hrun as [Hrun|Hrun]; by inversion Hrun.
        -- eapply Hstep; [| |exact Hrun]; simpl.
           ++ intros id Hne. by rewrite lookup_insert_ne.
           ++ left. by rewrite lookup_insert_eq.
    + eapply Hstep; [done| |exact Hrun]. by right.
Qed.

(** X10.  Whatever database call of a reconciler run throws, the run
    leaves a partial batch and nothing else: no record is created, and each
    record is either exactly as it was or, when it was UNREACHABLE and past
    the threshold, resolved as a run without faults resolves it (deleted
    when superseded, OFFLINE otherwise).  When the first call, the query,
    throws, the table is as it was and only the error is logged. *)
Theorem reconciler_partial_batch
    (fault : option nat) (now : Z) (connectedHosts : Registry) (db : Table) :
  let db' := (checkForUnreachableHostsToReset touch fault now connectedHosts db).1 in
  (forall id, db !! id = None -> db' !! id = None)
  /\ (forall id h,
        db !! id = Some h ->
        db' !! id = Some h
        \/ (status h = UNREACHABLE
            /\ now - updatedAt h > HOST_UNREACHABLE_THRESHOLD
            /\ ((superseded connectedHosts id h /\ db' !! id = None)
                \/ (~ superseded connectedHosts id h
                    /\ db' !! id
                       = Some (mkHostInstance (organizationId h) (Store.apiKeyId h)
                                 OFFLINE (touch (updatedAt h)))))))
  /\ (fault = Some 0%nat ->
      checkForUnreachableHostsToReset touch fault now connectedHosts db
      = (db, [ErrorChecking])).
Proof.
  cbv zeta.
  assert (Htable : forall id,
    (checkForUnreachableHostsToReset touch fault now connectedHosts db).1 !! id
    = db !! id
    \/ exists h, db !! id = Some h /\ status h = UNREACHABLE
                 /\ (checkForUnreachableHostsToReset touch fault now connectedHosts db).1
                      !! id
                    = resolved touch now connectedHosts (id, h)).
  { intros id. unfold checkForUnreachableHostsToReset, db_call.
    case_bool_decide; [by left|]. case_bool_decide; [by left|].
    set (st0 := mkLoopState db 1 [] _).
    assert (Hany : forall st',
      reset_loop touch fault now connectedHosts (findMany UNREACHABLE db) st0 = inl st'
      \/ reset_loop touch fault now connectedHosts (findMany UNREACHABLE db) st0 = inr st' ->
      loop_db st' !! id = db !! id
      \/ exists h, db !! id = Some h /\ status h = UNREACHABLE
                   /\ loop_db st' !! id = resolved touch now connectedHosts (id, h)).
    { intros st' Hrun.
      destruct (reset_loop_any fault now connectedHosts (findMany UNREACHABLE db)
                  st0 st' (findMany_NoDup _ _)) as (Hout & Hres); [|done|].
      { intros id' h' Hin'. by apply findMany_spec in Hin' as [? _]. }
      change (loop_db st0) with db in Hout.
      destruct (db !! id) as [h|] eqn:Hdb.
      - destruct (decide (status h = UNREACHABLE)) as [Hst|Hst].
        + assert (Hin' : (id, h) ∈ findMany UNREACHABLE db) by by apply findMany_spec.
          destruct (Hres _ Hin') as [Hr|Hr]; simpl in Hr.
          * right. by exists h.
          * by left.
        + left. rewrite Hout; [done|].
          intros Hin'. apply list_elem_of_fmap in Hin' as ([id' h'] & -> & Hin').
          apply findMany_spec in Hin' as [Hdb' Hst']. simpl in *. congruence.
      - left. rewrite Hout; [done|].
        intros Hin'. apply list_elem_of_fmap in Hin' as ([id' h'] & -> & Hin').
        apply findMany_spec in Hin' as [Hdb' _]. simpl in *. congruence. }
    destruct (reset_loop touch fault now connectedHosts _ st0) as [st'|st'] eqn:Hrun;
      simpl; apply Hany; auto. }
  split; [|split].
  - intros id Hdb. destruct (Htable id) as [->|(h & Hh & _)]; [done | congruence].
  - intros id h Hdb. destruct (Htable id) as [Heq|(h' & Hh & Hst & Hres)].
    + left. by rewrite Heq.
    + assert (h' = h) by congruence. subst h'. unfold resolved in Hres. simpl in Hres.
      case_bool_decide as Hold; [|by left]. right. split; [done|]. split; [done|].
      destruct (apiKeyHasNewConnection connectedHosts (id, h)) eqn:Hnew.
      * left. split; [by apply apiKeyHasNewConnection_spec | done].
      * right. split; [|done]. intros Hsup.
        apply apiKeyHasNewConnection_spec in Hsup. congruence.
  - intros ->. unfold checkForUnreachableHostsToReset, db_call.
    by rewrite bool_decide_eq_true_2.
Qed.

(** X11.  The reconciler is idempotent: run again at the same time and
    against the same registry on the table a run without faults has left,
    it leaves that table as it is. *)
Theorem reconciler_idempotent (now : Z) (connectedHosts : Registry) (db : Table) :
  let db' := (checkForUnreachableHostsToReset touch None now connectedHosts db).1 in
  (checkForUnreachableHostsToReset touch None now connectedHosts db').1 = db'.
Proof.
  cbv zeta. apply map_eq. intros id. rewrite !reconciler_table.
  destruct (db !! id) as [h|] eqn:Hdb; [|done].
  destruct (decide (status h = UNREACHABLE)) as [Hst|Hst].
  - destruct (resolved touch now connectedHosts (id, h)) as [h1|] eqn:Hres; [|done].
    unfold resolved in Hres. simpl in Hres.
    case_bool_decide as Hold.
    + destruct (apiKeyHasNewConnection connectedHosts (id, h)); [done|].
      inversion Hres; subst h1. by rewrite decide_False.
    + inversion Hres; subst h1. rewrite decide_True by done.
      unfold resolved. simpl. by rewrite bool_decide_eq_false_2.
  - by rewrite decide_False.
Qed.

(** X13.  The life of a host record that goes silent, through the sweep
    and the reconciler in turn and whatever else the table holds: a sweep
    that finds
    it ONLINE past the liveness timeout (and within the retention window)
    leaves it UNREACHABLE; a reconciler run that then finds it past the
    unreachable threshold with no superseding connection leaves it OFFLINE;
    and a later sweep deletes it exactly when the time the reconciler's
    write left in [updatedAt] is more than the retention window back. *)
Theorem silent_host_lifecycle
    (db : Table) (id : string) (h : HostInstance)
    (t1 t1' now t3 t3' : Z) (connectedHosts : Registry) :
  db !! id = Some h ->
  status h = ONLINE ->
  updatedAt h < t1 - LIVENESS_TIMEOUT ->
  ~ updatedAt h < t1' - RETENTION_WINDOW ->
  now - updatedAt h > HOST_UNREACHABLE_THRESHOLD ->
  ~ superseded connectedHosts id h ->
  let db1 := HostStatusCheck.table_after
               (HostStatusCheck.checkForUnreachableHosts None t1 t1' db) in
  let db2 := (checkForUnreachableHostsToReset touch None now connectedHosts db1).1 in
  let db3 := HostStatusCheck.table_after
               (HostStatusCheck.checkForUnreachableHosts None t3 t3' db2) in
  db1 !! id = Some (mkHostInstance (organizationId h) (Store.apiKeyId h)
                      UNREACHABLE (updatedAt h))
  /\ db2 !! id = Some (mkHostInstance (organizationId h) (Store.apiKeyId h)
                        OFFLINE (touch (updatedAt h)))
  /\ (db3 !! id = None <-> touch (updatedAt h) < t3' - RETENTION_WINDOW).
Proof.
  intros Hdb Hon Hstale Hnew Hold Hsup. cbv zeta.
  assert (H1 : HostStatusCheck.table_after
                 (HostStatusCheck.checkForUnreachableHosts None t1 t1' db) !! id
               = Some (mkHostInstance (organizationId h) (Store.apiKeyId h)
                         UNREACHABLE (updatedAt h))).
  { rewrite sweep_table, Hdb. cbv zeta.
    destruct (decide (stale_online t1 h)) as [_|Hn]; [|exfalso; apply Hn; by split].
    rewrite decide_False; [done|]. unfold old_terminal. simpl. tauto. }
  assert (H2 : (checkForUnreachableHostsToReset touch None now connectedHosts
                  (HostStatusCheck.table_after
                     (HostStatusCheck.checkForUnreachableHosts None t1 t1' db))).1 !! id
               = Some (mkHostInstance (organizationId h) (Store.apiKeyId h)
                         OFFLINE (touch (updatedAt h)))).
  { rewrite reconciler_table, H1. simpl. unfold resolved. simpl.
    rewrite bool_decide_eq_true_2 by done.
    destruct (apiKeyHasNewConnection connectedHosts _) eqn:Hnew'; [|done].
    apply apiKeyHasNewConnection_spec in Hnew'. exfalso. apply Hsup.
    destruct Hnew' as (k & c & ? & ? & ?). by exists k, c. }
  split; [done|]. split; [done|].
  rewrite sweep_table, H2. cbv zeta.
  destruct (decide (stale_online t3 _)) as [[Hs _]|_]; [done|].
  unfold old_terminal. simpl.
  destruct (decide _) as [[_ Hd]|Hd]; [done|]. split; [done|].
  intros Hlt. exfalso. apply Hd. auto.
Qed.

(** What a loop that ends normally has pushed to [hostsToReset]: the rows
    past the threshold, in the order of the query. *)
Lemma reset_loop_pushed fault now connectedHosts hosts st st' :
  reset_loop touch fault now connectedHosts hosts st = inr st' ->
  hostsToReset st'
  = hostsToReset st
    ++ (ReconcilerSpec.to_reset now
          <$> filter (ReconcilerSpec.past_threshold now) hosts)
  /\ forall e, e ∈ loop_log st' ->
               e ∈ loop_log st \/ exists a b c, e = CleaningUpOldHost a b c.
Proof.
  revert st. induction hosts as [|[id0 h0] rest IH]; intros st Hrun.
  - simpl in Hrun. inversion Hrun; subst. rewrite filter_nil. simpl.
    rewrite app_nil_r. auto.
  - cbn [reset_loop] in Hrun. rewrite filter_cons.
    unfold ReconcilerSpec.past_threshold at 1. cbn [snd fst] in *.
    case_bool_decide as Hold.
    + rewrite decide_True by done.
      destruct (apiKeyHasNewConnection connectedHosts (id0, h0));
        destruct (db_call fault _ _) as [db'|]; try done;
        apply IH in Hrun as [-> Hlog]; simpl in *;
        (split; [by rewrite <- app_assoc|]); intros e He;
        apply Hlog in He as [He|He]; auto;
        apply elem_of_app in He as [He|He]; auto;
        apply list_elem_of_singleton in He; eauto.
    + rewrite decide_False by done. by apply IH.
Qed.

(** X12.  In a reconciler run without faults, a report of reset hosts is
    logged exactly when some record is UNREACHABLE and past the threshold,
    and it then lists exactly those records, each with its identifier,
    organization, API key, age and time of last update; no error is logged. *)
Theorem reconciler_reports_reset_hosts
    (now : Z) (connectedHosts : Registry) (db : Table) :
  let log := (checkForUnreachableHostsToReset touch None now connectedHosts db).2 in
  (forall hosts,
      ResetUnreachableHosts hosts ∈ log ->
      forall r, r ∈ hosts
                <-> exists id h, db !! id = Some h /\ status h = UNREACHABLE
                                 /\ now - updatedAt h > HOST_UNREACHABLE_THRESHOLD
                                 /\ r = mkHostToReset id (organizationId h)
                                          (Store.apiKeyId h) (now - updatedAt h)
                                          (updatedAt h))
  /\ ((exists hosts, ResetUnreachableHosts hosts ∈ log)
      <-> exists id h, db !! id = Some h /\ status h = UNREACHABLE
                       /\ now - updatedAt h > HOST_UNREACHABLE_THRESHOLD)
  /\ ErrorChecking ∉ log.
Proof.
  cbv zeta.
  set (pushed := ReconcilerSpec.to_reset now
                   <$> filter (ReconcilerSpec.past_threshold now)
                         (findMany UNREACHABLE db)).
  assert (Hpushed : forall r,
    r ∈ pushed
    <-> exists id h, db !! id = Some h /\ status h = UNREACHABLE
                     /\ now - updatedAt h > HOST_UNREACHABLE_THRESHOLD
                     /\ r = mkHostToReset id (organizationId h)
                              (Store.apiKeyId h) (now - updatedAt h) (updatedAt h)).
  { intros r. unfold pushed. rewrite list_elem_of_fmap. split.
    - intros ([id h] & -> & Hin). apply list_elem_of_filter in Hin as [Hold Hin].
      apply findMany_spec in Hin as [Hdb Hst]. by exists id, h.
    - intros (id & h & Hdb & Hst & Hold & ->). exists (id, h). split; [done|].
      apply list_elem_of_filter. split; [done|]. by apply findMany_spec. }
  assert (Hlog : (checkForUnreachableHostsToReset touch None now connectedHosts db).2
                 = [] /\ pushed = []
                 \/ exists log0,
                      (forall e, e ∈ log0 ->
                         (exists n, e = FoundUnreachableHosts n)
                         \/ exists a b c, e = CleaningUpOldHost a b c)
                      /\ (checkForUnreachableHostsToReset touch None now
                            connectedHosts db).2
                         = log0 ++ if bool_decide (0 < length pushed)%nat
                                   then [ResetUnreachableHosts pushed] else []).
  { unfold checkForUnreachableHostsToReset. rewrite db_call_None.
    case_bool_decide as Hlen.
    - left. split; [done|]. unfold pushed.
      destruct (findMany UNREACHABLE db); [done | simpl in Hlen; lia].
    - right.
      destruct (reset_loop_ok touch now connectedHosts (findMany UNREACHABLE db)
                  (mkLoopState db 1 [] [FoundUnreachableHosts
                                          (length (findMany UNREACHABLE db))]))
        as (st' & Hrun & _); [apply findMany_NoDup| |].
      { intros id' h' Hin. by apply findMany_spec in Hin as [? _]. }
      rewrite Hrun. apply reset_loop_pushed in Hrun as [Hp Hl]. simpl in *.
      exists (loop_log st'). split; [|by rewrite Hp].
      intros e He. apply Hl in He as [He|He]; [|by right].
      apply list_elem_of_singleton in He. left. eauto. }
  destruct Hlog as [[-> Hnil]|(log0 & Hlog0 & ->)].
  - split; [intros hosts Hin; by apply elem_of_nil in Hin|]. split.
    + split; [intros (hosts & Hin); by apply elem_of_nil in Hin|].
      intros (id & h & Hdb & Hst & Hold).
      assert (Hin : mkHostToReset id (organizationId h) (Store.apiKeyId h)
                      (now - updatedAt h) (updatedAt h) ∈ pushed).
      { apply Hpushed. by exists id, h. }
      rewrite Hnil in Hin. by apply elem_of_nil in Hin.
    + apply not_elem_of_nil.
  - assert (Hreport : forall hosts,
      ResetUnreachableHosts hosts
        ∈ log0 ++ (if bool_decide (0 < length pushed)%nat
                   then [ResetUnreachableHosts pushed] else []) ->
      hosts = pushed /\ (0 < length pushed)%nat).
    { intros hosts [Hin|Hin]%elem_of_app.
      - apply Hlog0 in Hin as [(? & ?)|(? & ? & ? & ?)]; done.
      - case_bool_decide; [|by apply elem_of_nil in Hin].
        apply list_elem_of_singleton in Hin. by inversion Hin. }
    split; [|split].
    + intros hosts Hin. apply Hreport in Hin as [-> _]. apply Hpushed.
    + split.
      * intros (hosts & Hin). apply Hreport in Hin as [_ Hpos].
        destruct pushed as [|r l] eqn:Hp; [simpl in Hpos; lia|].
        assert (Hr : r ∈ r :: l) by left.
        apply Hpushed in Hr as (id & h & ? & ? & ? & _). by exists id, h.
      * intros (id & h & Hdb & Hst & Hold). exists pushed.
        apply elem_of_app. right.
        assert (Hin : mkHostToReset id (organizationId h) (Store.apiKeyId h)
                        (now - updatedAt h) (updatedAt h) ∈ pushed).
        { apply Hpushed. by exists id, h. }
        rewrite bool_decide_eq_true_2; [left|].
        destruct pushed; [by apply elem_of_nil in Hin | simpl; lia].
    + intros [Hin|Hin]%elem_of_app.
      * apply Hlog0 in Hin as [(? & ?)|(? & ? & ? & ?)]; done.
      * case_bool_decide; [|by apply elem_of_nil in Hin].
        by apply list_elem_of_singleton in Hin.
Qed.

End ReconcilerMoreFacts.

Lemma silent_host_lifecycle_witness :
  let db : Store.Table :=
    {[ "h"%string := Store.mkHostInstance "org" "key" Store.ONLINE 0;
       "other"%string := Store.mkHostInstance "org" "key2" Store.ONLINE 119000 ]} in
  let db1 := HostStatusCheck.table_after
               (HostStatusCheck.checkForUnreachableHosts None 120000 120000 db) in
  let db2 := (AutoReconnect.checkForUnreachableHostsToReset (fun t => t) None 1980000
                ∅ db1).1 in
  let db3 := HostStatusCheck.table_after
               (HostStatusCheck.checkForUnreachableHosts None 23580000 23580000 db2) in
  db !! "h"%string = Some (Store.mkHostInstance "org" "key" Store.ONLINE 0)
  /\ db1 !! "h"%string = Some (Store.mkHostInstance "org" "key" Store.UNREACHABLE 0)
  /\ db2 !! "h"%string = Some (Store.mkHostInstance "org" "key" Store.OFFLINE 0)
  /\ db3 !! "h"%string = None.
Proof.
  cbv zeta.
  assert (Hdb : ({[ "h"%string := Store.mkHostInstance "org" "key" Store.ONLINE 0;
                    "other"%string := Store.mkHostInstance "org" "key2" Store.ONLINE 119000 ]}
                 : Store.Table) !! "h"%string
                = Some (Store.mkHostInstance "org" "key" Store.ONLINE 0))
    by by vm_compute.
  assert (Hsup : ~ AutoReconnect.superseded ∅ "h"
                     (Store.mkHostInstance "org" "key" Store.ONLINE 0)).
  { intros (k & c & Hk & _). by rewrite lookup_empty in Hk. }
  pose proof (silent_host_lifecycle (fun t => t) _ "h" _ 120000 120000 1980000
                23580000 23580000 ∅ Hdb eq_refl eq_refl
                ltac:(by vm_compute) eq_refl Hsup) as (H1 & H2 & H3).
  split; [exact Hdb|]. split; [exact H1|]. split; [exact H2|].
  apply H3. reflexivity.
Defined.

(** ** The health check on its own *)

Section CheckMoreFacts.
Import Store ProcessVars ServerHealth.

Lemma elem_of_keys (reg : Registry) id : id ∈ keys reg <-> is_Some (reg !! id).
Proof.
  unfold keys. rewrite list_elem_of_fmap. split.
  - intros ([k c] & -> & Hin). apply elem_of_map_to_list in Hin. by exists c.
  - intros [c Hc]. exists (id, c). split; [done|]. by apply elem_of_map_to_list.
Qed.

Lemma elem_of_disconnectedHosts (reg : Registry) (db : Table) id h :
  (id, h) ∈ disconnectedHosts reg (findMany ONLINE db)
  <-> db !! id = Some h /\ status h = ONLINE /\ reg !! id = None.
Proof.
  unfold disconnectedHosts. rewrite list_elem_of_filter, findMany_spec. simpl.
  rewrite elem_of_keys, <- eq_None_not_Some. tauto.
Qed.

(** X14.  With a registry that is not empty and no database fault, the
    check fails exactly when more than 3 records are ONLINE in the table
    with no entry under their identifier in the registry; the result does
    not depend on the failure counter, and no inconsistency is logged. *)
Theorem nonempty_registry_check_counts_missing_hosts
    (db : Table) (reg : Registry) (failures : Z) :
  size reg ≠ 0%nat ->
  let r := checkServerHealth None db reg failures in
  (r.1 = false <-> (3 < length (disconnectedHosts reg (findMany ONLINE db)))%nat)
  /\ (forall id h,
        (id, h) ∈ disconnectedHosts reg (findMany ONLINE db)
        <-> db !! id = Some h /\ status h = ONLINE /\ reg !! id = None)
  /\ r = checkServerHealth None db reg 0
  /\ (forall a b, LogInconsistency a b ∉ r.2).
Proof.
  intros Hsize. cbv zeta.
  assert (Heq : forall n,
    checkServerHealth None db reg n
    = let disconnected := disconnectedHosts reg (findMany ONLINE db) in
      (negb (bool_decide (3 < length disconnected)%nat),
       if bool_decide (0 < length disconnected)%nat
       then [LogDisconnectedHosts disconnected.*1] else [])).
  { intros n. unfold checkServerHealth. rewrite !db_call_None.
    rewrite (bool_decide_eq_false_2 (size reg = 0%nat)) by done.
    rewrite andb_false_r. simpl. by case_bool_decide. }
  rewrite !Heq. cbv zeta. simpl.
  split; [|split; [intros; apply elem_of_disconnectedHosts|split; [done|]]].
  - case_bool_decide; simpl; split; try done; lia.
  - intros a b Hin. case_bool_decide; [|by apply elem_of_nil in Hin].
    by apply list_elem_of_singleton in Hin.
Qed.

(** X15.  When every record that is ONLINE in the table has an entry under
    its identifier in the registry and no database call throws, the check
    succeeds and logs nothing, whatever the failure counter. *)
Theorem consistent_state_is_healthy (db : Table) (reg : Registry) (failures : Z) :
  (forall id h, db !! id = Some h -> status h = ONLINE -> is_Some (reg !! id)) ->
  checkServerHealth None db reg failures = (true, []).
Proof.
  intros Hall. unfold checkServerHealth. rewrite !db_call_None.
  assert (Hnone : disconnectedHosts reg (findMany ONLINE db) = []).
  { destruct (disconnectedHosts reg (findMany ONLINE db)) as [|[id h] l] eqn:Hd; [done|].
    assert (Hin : (id, h) ∈ disconnectedHosts reg (findMany ONLINE db))
      by (rewrite Hd; left).
    apply elem_of_disconnectedHosts in Hin as (Hdb & Hst & Hreg).
    destruct (Hall id h Hdb Hst) as [c Hc]. congruence. }
  assert (Hinc : bool_decide (0 < length (findMany ONLINE db))%nat
                 && bool_decide (size reg = 0%nat) = false).
  { apply andb_false_iff.
    destruct (findMany ONLINE db) as [|[id h] l] eqn:Hf.
    - left. apply bool_decide_eq_false_2. simpl. lia.
    - right. apply bool_decide_eq_false_2. intros Hsize.
      apply map_size_empty_iff in Hsize. subst reg.
      assert (Hin : (id, h) ∈ findMany ONLINE db) by (rewrite Hf; left).
      apply findMany_spec in Hin as [Hdb Hst].
      destruct (Hall id h Hdb Hst) as [c Hc]. by rewrite lookup_empty in Hc. }
  rewrite Hinc, Hnone. simpl. done.
Qed.

(** X17.  The initial check never escalates: whatever the state it starts
    from, also with the counter at or over the restart threshold, it sets
    the healthy flag to its result, adds one to the counter when it fails,
    leaves the counter when it succeeds, leaves the restart time, and
    neither calls the restart handler nor arms the exit timer. *)
Theorem initial_check_never_escalates (i : CycleInput) (st : HealthCheckState) :
  let '(isHealthy, st', log) := initialCheck i st in
  isServerHealthy st' = isHealthy
  /\ healthCheckFailures st'
     = (if isHealthy then healthCheckFailures st else healthCheckFailures st + 1)
  /\ lastRestartTime st' = lastRestartTime st
  /\ existsb is_exit log = false
  /\ (forall n, (LogInCooldown n ∉ log) /\ (LogInitiatingRestart n ∉ log)).
Proof.
  unfold initialCheck.
  pose proof (check_no_handler (checkFault i) (table i) (connectedHosts i)
                (healthCheckFailures st)) as (Hcool & Hinit & Hexit).
  destruct (checkServerHealth _ _ _ _) as [[] log]; simpl in *.
  - do 4 (split; [done|]). intros n. split; [apply Hcool | apply Hinit].
  - do 3 (split; [done|]). split; [by rewrite existsb_app, Hexit|].
    intros n. split.
    + intros [Hin|Hin]%elem_of_app; [by eapply Hcool|].
      by apply list_elem_of_singleton in Hin.
    + intros [Hin|Hin]%elem_of_app; [by eapply Hinit|].
      by apply list_elem_of_singleton in Hin.
Qed.

End CheckMoreFacts.

Lemma nonempty_registry_check_witness :
  let db : Store.Table :=
    {[ "h1"%string := Store.mkHostInstance "org" "k1" Store.ONLINE 0;
       "h2"%string := Store.mkHostInstance "org" "k2" Store.ONLINE 0;
       "h3"%string := Store.mkHostInstance "org" "k3" Store.ONLINE 0;
       "h4"%string := Store.mkHostInstance "org" "k4" Store.ONLINE 0;
       "h5"%string := Store.mkHostInstance "org" "k5" Store.ONLINE 0 ]} in
  let reg : ProcessVars.Registry :=
    {[ "h1"%string := ProcessVars.mkConnectedHost "k1" "h1" ]} in
  size reg ≠ 0%nat
  /\ (3 < length (ServerHealth.disconnectedHosts reg
                    (Store.findMany Store.ONLINE db)))%nat
  /\ (ServerHealth.checkServerHealth None db reg 0).1 = false.
Proof.
  cbv zeta.
  assert (Hsize : size ({[ "h1"%string := ProcessVars.mkConnectedHost "k1" "h1" ]}
                        : ProcessVars.Registry) ≠ 0%nat) by by vm_compute.
  assert (Hmany : (3 < length (ServerHealth.disconnectedHosts
    ({[ "h1"%string := ProcessVars.mkConnectedHost "k1" "h1" ]} : ProcessVars.Registry)
    (Store.findMany Store.ONLINE
       ({[ "h1"%string := Store.mkHostInstance "org" "k1" Store.ONLINE 0;
           "h2"%string := Store.mkHostInstance "org" "k2" Store.ONLINE 0;
           "h3"%string := Store.mkHostInstance "org" "k3" Store.ONLINE 0;
           "h4"%string := Store.mkHostInstance "org" "k4" Store.ONLINE 0;
           "h5"%string := Store.mkHostInstance "org" "k5" Store.ONLINE 0 ]}
        : Store.Table))))%nat) by (vm_compute; lia).
  split; [exact Hsize|]. split; [exact Hmany|].
  exact (proj2 (proj1 (nonempty_registry_check_counts_missing_hosts _ _ 0 Hsize)) Hmany).
Defined.

Lemma consistent_state_is_healthy_witness :
  let db : Store.Table :=
    {[ "h1"%string := Store.mkHostInstance "org" "k1" Store.ONLINE 0;
       "h2"%string := Store.mkHostInstance "org" "k2" Store.OFFLINE 0 ]} in
  let reg : ProcessVars.Registry :=
    {[ "h1"%string := ProcessVars.mkConnectedHost "k1" "h1" ]} in
  (forall id h, db !! id = Some h -> Store.status h = Store.ONLINE ->
                is_Some (reg !! id))
  /\ ServerHealth.checkServerHealth None db reg 7 = (true, []).
Proof.
  cbv zeta.
  assert (Hall : forall id h,
    ({[ "h1"%string := Store.mkHostInstance "org" "k1" Store.ONLINE 0;
        "h2"%string := Store.mkHostInstance "org" "k2" Store.OFFLINE 0 ]}
     : Store.Table) !! id = Some h ->
    Store.status h = Store.ONLINE ->
    is_Some (({[ "h1"%string := ProcessVars.mkConnectedHost "k1" "h1" ]}
              : ProcessVars.Registry) !! id)).
  { intros id h Hdb Hst.
    destruct (decide (id = "h1"%string)) as [->|Hne1]; [by eexists|].
    rewrite lookup_insert_ne in Hdb by done.
    destruct (decide (id = "h2"%string)) as [->|Hne2].
    - rewrite lookup_singleton_eq in Hdb. by inversion Hdb; subst.
    - by rewrite lookup_singleton_ne in Hdb. }
  split; [exact Hall|].
  exact (consistent_state_is_healthy _ _ 7 Hall).
Defined.

(** ** What a periodic check writes *)

Section CycleMoreFacts.
Import Store ProcessVars ServerHealth.

Variable touch : Z -> Z.

(** X16.  A periodic check arms the exit timer exactly when its check
    failed, the counter reached the restart threshold, the cooldown is over
    and the bulk update did not throw; it then records the time of the
    cycle as the restart time.  Any other periodic check leaves the table
    and the restart time exactly as they were. *)
Theorem exit_only_on_successful_escalation (i : CycleInput) (st : HealthCheckState) :
  let c := healthCheckCycle touch i st in
  (exits c = true
   <-> healthy c = false
       /\ healthCheckFailures st + 1 >= RESTART_THRESHOLD
       /\ ~ now i - lastRestartTime st < RESTART_COOLDOWN
       /\ restartFault i <> Some 0%nat)
  /\ (exits c = true -> lastRestartTime (state_after c) = now i)
  /\ (exits c = false ->
      table_after c = table i
      /\ lastRestartTime (state_after c) = lastRestartTime st).
Proof.
  cbv zeta. destruct (healthy (healthCheckCycle touch i st)) eqn:Hh.
  - destruct (cycle_success touch i st Hh) as (Ht & _ & Hl & _ & _ & Hex).
    rewrite Hex. split; [split; [done | by intros [? _]]|]. by split.
  - destruct (cycle_failure touch i st Hh) as (log & _ & _ & Hle & Heq).
    rewrite Heq. cbv zeta. unfold exits.
    case_bool_decide as Hthr; simpl.
    + unfold handleUnhealthyServer, db_call.
      case_bool_decide as Hcool; simpl.
      * rewrite existsb_app, Hle. simpl.
        split; [split; [done | tauto]|]. by split.
      * case_bool_decide as Hf; simpl; rewrite existsb_app, Hle; simpl.
        -- split; [split; [done | intros (_ & _ & _ & Hne); congruence]|]. by split.
        -- split; [split; [intros _; repeat split; try done; congruence | done]|].
           by split.
    + rewrite Hle. split; [split; [done | tauto]|]. by split.
Qed.




End CycleMoreFacts.

(** C4.  The code at the failing input: two lives of the process.  In the
    first the check at start and two periodic checks fail, and the second
    periodic check restarts the process at 10600000.  The process comes up
    again with its variables as at load, [lastRestartTime] 0 among them;
    its check at start and two periodic checks fail again, and it restarts
    at 11300000, less than 12 minutes after the restart before, well within
    the cooldown of one hour. *)
Theorem second_restart_within_cooldown :
  let failing t :=
    ServerHealth.mkCycleInput t
      {[ "h1"%string := Store.mkHostInstance "org" "k1" Store.ONLINE 0 ]}
      ∅ (Some 0%nat) None in
  let life1 :=
    ServerHealth.startServerHealthMonitoring (fun t => t) (failing 10000000)
      [failing 10300000; failing 10600000] in
  let life2 :=
    ServerHealth.startServerHealthMonitoring (fun t => t) (failing 10700000)
      [failing 11000000; failing 11300000] in
  ServerHealth.exits <$> life1.1.2 = [false; true]
  /\ ServerHealth.lastRestartTime life1.2 = 10600000
  /\ ServerHealth.lastRestartTime ServerHealth.initial = 0
  /\ ServerHealth.exits <$> life2.1.2 = [false; true]
  /\ ServerHealth.lastRestartTime life2.2 = 11300000
  /\ 11300000 - 10600000 < ServerHealth.RESTART_COOLDOWN
  /\ ServerHealth.effects <$> life2.1.2
     = [[ServerHealth.LogDatabaseCheckFailed; ServerHealth.LogCheckFailed 2];
        [ServerHealth.LogDatabaseCheckFailed; ServerHealth.LogCheckFailed 3;
         ServerHealth.LogInitiatingRestart 3; ServerHealth.LogExiting;
         ServerHealth.ExitAfter 1000 1]].
Proof. cbv zeta. repeat split; by vm_compute. Qed.


(** ** The report of stale connections *)

Section ConnectionHealthFacts.
Import Store ProcessVars ConnectionHealthCheck.

(** The loop, for any faults: what it adds to [staleHosts] and to the log. *)
Lemma host_loop_spec faults now (db : Table) entries n stale log :
  let r := host_loop faults now db entries n stale log in
  (forall sh, sh ∈ r.1 <->
     sh ∈ stale
     \/ exists k id c,
          entries !! k = Some (id, c) /\ faults (n + k)%nat = false
          /\ stale_id sh = id
          /\ ((db !! id = None /\ reason sh = NotFoundInDatabase)
              \/ exists h, db !! id = Some h
                           /\ now - updatedAt h > HOST_STALE_THRESHOLD
                           /\ reason sh
                              = NotUpdatedRecently (updatedAt h) (now - updatedAt h)))
  /\ (forall e, e ∈ r.2 <->
        e ∈ log
        \/ exists k id c,
             entries !! k = Some (id, c) /\ faults (n + k)%nat = true
             /\ e = ErrorCheckingHost id).
Proof.
  revert n stale log. induction entries as [|[id0 c0] rest IH]; intros n stale log.
  - simpl. split; intros x; (split; [by left | intros [?|(k & ? & ? & Hk & _)]; done]).
  - assert (Hshift : forall (P : nat -> string -> ConnectedHost -> Prop),
      (exists k id c, ((id0, c0) :: rest) !! k = Some (id, c) /\ P (n + k)%nat id c)
      <-> P n id0 c0
          \/ exists k id c, rest !! k = Some (id, c) /\ P (S n + k)%nat id c).
    { intros P. split.
      - intros ([|k] & id & c & Hk & HP); simpl in Hk.
        + inversion Hk; subst. left. by rewrite Nat.add_0_r in HP.
        + right. exists k, id, c. split; [done|].
          by replace (S n + k)%nat with (n + S k)%nat by lia.
      - intros [HP|(k & id & c & Hk & HP)].
        + exists 0%nat, id0, c0. split; [done|]. by rewrite Nat.add_0_r.
        + exists (S k), id, c. split; [done|].
          by replace (n + S k)%nat with (S n + k)%nat by lia. }
    cbv zeta. cbn [host_loop].
    destruct (faults n) eqn:Hfault.
    + destruct (IH (S n) stale (log ++ [ErrorCheckingHost id0])) as [Hs He].
      split.
      * intros sh. rewrite Hs.
        rewrite (Hshift (fun m id c => faults m = false /\ stale_id sh = id /\ _)).
        rewrite Hfault. naive_solver.
      * intros e. rewrite He, elem_of_app, list_elem_of_singleton.
        rewrite (Hshift (fun m id c => faults m = true /\ e = ErrorCheckingHost id)).
        rewrite Hfault. naive_solver.
    + destruct (db !! id0) as [h0|] eqn:Hdb0.
      * case_bool_decide as Hold.
        -- destruct (IH (S n)
                       (stale ++ [mkStaleHost id0
                                    (NotUpdatedRecently (updatedAt h0)
                                       (now - updatedAt h0))]) log) as [Hs He].
           split.
           ++ intros sh. rewrite Hs, elem_of_app, list_elem_of_singleton.
              rewrite (Hshift (fun m id c => faults m = false /\ stale_id sh = id /\ _)).
              rewrite Hfault, Hdb0. split.
              ** intros [[?| ->]|?]; [by left | | by right; right].
                 right. left. split; [done|]. split; [done|]. right. by exists h0.
              ** intros [?|[(_ & Hid & [[? _]|(h & Hh & _ & Hr)])|?]];
                   [by left; left | done | | by right].
                 left. right. inversion Hh; subst h. destruct sh. simpl in *. by subst.
           ++ intros e. rewrite He.
              rewrite (Hshift (fun m id c => faults m = true /\ e = ErrorCheckingHost id)).
              rewrite Hfault. naive_solver.
        -- destruct (IH (S n) stale log) as [Hs He]. split.
           ++ intros sh. rewrite Hs.
              rewrite (Hshift (fun m id c => faults m = false /\ stale_id sh = id /\ _)).
              rewrite Hfault, Hdb0. split; [naive_solver|].
              intros [?|[(_ & _ & [[? _]|(h & Hh & Hgt & _)])|?]];
                [by left | done | | by right].
              inversion Hh; subst h. done.
           ++ intros e. rewrite He.
              rewrite (Hshift (fun m id c => faults m = true /\ e = ErrorCheckingHost id)).
              rewrite Hfault. naive_solver.
      * destruct (IH (S n) (stale ++ [mkStaleHost id0 NotFoundInDatabase]) log)
          as [Hs He].
        split.
        -- intros sh. rewrite Hs, elem_of_app, list_elem_of_singleton.
           rewrite (Hshift (fun m id c => faults m = false /\ stale_id sh = id /\ _)).
           rewrite Hfault, Hdb0. split.
           ++ intros [[?| ->]|?]; [by left | | by right; right].
              right. left. split; [done|]. split; [done|]. by left.
           ++ intros [?|[(_ & Hid & [[_ Hr]|(h & Hh & _)])|?]];
                [by left; left | | done | by right].
              left. right. destruct sh. simpl in *. by subst.
        -- intros e. rewrite He.
           rewrite (Hshift (fun m id c => faults m = true /\ e = ErrorCheckingHost id)).
           rewrite Hfault. naive_solver.
Qed.

Lemma staleHosts_of_spec faults now (db : Table) (reg : Registry) sh :
  sh ∈ staleHosts_of faults now db reg
  <-> exists k c,
        map_to_list reg !! k = Some (stale_id sh, c) /\ faults k = false
        /\ ((db !! stale_id sh = None /\ reason sh = NotFoundInDatabase)
            \/ exists h, db !! stale_id sh = Some h
                         /\ now - updatedAt h > HOST_STALE_THRESHOLD
                         /\ reason sh
                            = NotUpdatedRecently (updatedAt h) (now - updatedAt h)).
Proof.
  unfold staleHosts_of.
  destruct (host_loop_spec faults now db (map_to_list reg) 0 [] []) as [Hs _].
  cbv zeta in Hs. rewrite Hs. split.
  - intros [Hin|(k & id & c & Hk & Hf & Hid & Hr)]; [by apply elem_of_nil in Hin|].
    subst id. simpl in Hf. by exists k, c.
  - intros (k & c & Hk & Hf & Hr). right. by exists k, (stale_id sh), c.
Qed.

(** X18.  Whatever lookups of a run throw, every host the connection
    health check reports as stale is a host of the registry that is stale:
    it has no record in the table, and is reported as not found, or its
    record was last updated more than 10 minutes ago, and is reported with
    that time.  A stale client connection is never reported. *)
Theorem stale_report_is_sound
    (faults : nat -> bool) (now : Z) (db : Table) (reg : Registry) (sh : StaleHost) :
  sh ∈ staleHosts_of faults now db reg ->
  is_Some (reg !! stale_id sh)
  /\ ((db !! stale_id sh = None /\ reason sh = NotFoundInDatabase)
      \/ exists h, db !! stale_id sh = Some h
                   /\ now - updatedAt h > 600000
                   /\ reason sh = NotUpdatedRecently (updatedAt h) (now - updatedAt h))
  /\ (forall count,
        StaleClientConnections count ∉ performConnectionHealthCheck faults now db reg).
Proof.
  intros Hin. apply staleHosts_of_spec in Hin as (k & c & Hk & _ & Hr).
  split; [|split; [exact Hr|]].
  - exists c. apply elem_of_map_to_list, list_elem_of_lookup. by exists k.
  - intros count Hlog. unfold performConnectionHealthCheck in Hlog.
    destruct (host_loop_spec faults now db (map_to_list reg) 0 [] []) as [_ He].
    cbv zeta in He.
    destruct (host_loop faults now db (map_to_list reg) 0 [] []) as [stale log].
    simpl in *. rewrite app_nil_r in Hlog.
    apply elem_of_app in Hlog as [Hlog|Hlog].
    + apply He in Hlog as [Hlog|(? & ? & ? & _ & _ & ?)]; [|done].
      by apply elem_of_nil in Hlog.
    + case_bool_decide; [|by apply elem_of_nil in Hlog].
      by apply list_elem_of_singleton in Hlog.
Qed.

(** X19.  When no lookup throws, the connection health check reports
    exactly the stale hosts of the registry: a host is reported if and only
    if it is in the registry and has no record or a record last updated more
    than 10 minutes ago.  The run then logs the one report of these hosts,
    and logs nothing at all when there is none. *)
Theorem stale_report_is_complete (now : Z) (db : Table) (reg : Registry) :
  let staleHosts := staleHosts_of (fun _ => false) now db reg in
  (forall id,
      (exists sh, sh ∈ staleHosts /\ stale_id sh = id)
      <-> is_Some (reg !! id) /\ stale_connection now db id)
  /\ performConnectionHealthCheck (fun _ => false) now db reg
     = (if bool_decide (0 < length staleHosts)%nat
        then [StaleHostConnections staleHosts] else []).
Proof.
  cbv zeta. split.
  - intros id. split.
    + intros (sh & Hin & <-).
      apply staleHosts_of_spec in Hin as (k & c & Hk & _ & Hr). split.
      * exists c. apply elem_of_map_to_list, list_elem_of_lookup. by exists k.
      * unfold stale_connection. destruct Hr as [[? _]|(h & ? & ? & _)]; eauto.
    + intros [[c Hc] Hstale].
      apply elem_of_map_to_list, list_elem_of_lookup in Hc as [k Hk].
      destruct Hstale as [Hnone|(h & Hh & Hold)].
      * exists (mkStaleHost id NotFoundInDatabase). split; [|done].
        apply staleHosts_of_spec. exists k, c. simpl. by eauto.
      * exists (mkStaleHost id (NotUpdatedRecently (updatedAt h) (now - updatedAt h))).
        split; [|done]. apply staleHosts_of_spec. exists k, c. simpl.
        split; [done|]. split; [done|]. right. by exists h.
  - unfold performConnectionHealthCheck, staleHosts_of.
    destruct (host_loop_spec (fun _ => false) now db (map_to_list reg) 0 [] [])
      as [_ He].
    cbv zeta in He.
    destruct (host_loop _ now db (map_to_list reg) 0 [] []) as [stale log].
    simpl in *. rewrite app_nil_r.
    assert (log = []) as ->; [|done].
    destruct log as [|e log]; [done|]. exfalso.
    destruct (proj1 (He e)) as [Hin|(? & ? & ? & _ & ? & _)]; [by left| |done].
    by apply elem_of_nil in Hin.
Qed.

End ConnectionHealthFacts.

Lemma stale_report_is_sound_witness :
  let db : Store.Table :=
    {[ "h1"%string := Store.mkHostInstance "org" "k1" Store.ONLINE 0;
       "h2"%string := Store.mkHostInstance "org" "k2" Store.ONLINE 500000 ]} in
  let reg : ProcessVars.Registry :=
    {[ "h1"%string := ProcessVars.mkConnectedHost "k1" "h1";
       "h2"%string := ProcessVars.mkConnectedHost "k2" "h2";
       "h3"%string := ProcessVars.mkConnectedHost "k3" "h3" ]} in
  let sh := ConnectionHealthCheck.mkStaleHost "h1"
              (ConnectionHealthCheck.NotUpdatedRecently 0 600001) in
  sh ∈ ConnectionHealthCheck.staleHosts_of (fun _ => false) 600001 db reg
  /\ is_Some (reg !! "h1"%string)
  /\ length (ConnectionHealthCheck.staleHosts_of (fun _ => false) 600001 db reg)
     = 2%nat.
Proof.
  cbv zeta.
  assert (Hin :
    ConnectionHealthCheck.mkStaleHost "h1"
      (ConnectionHealthCheck.NotUpdatedRecently 0 600001)
    ∈ ConnectionHealthCheck.staleHosts_of (fun _ => false) 600001
        ({[ "h1"%string := Store.mkHostInstance "org" "k1" Store.ONLINE 0;
            "h2"%string := Store.mkHostInstance "org" "k2" Store.ONLINE 500000 ]}
         : Store.Table)
        ({[ "h1"%string := ProcessVars.mkConnectedHost "k1" "h1";
            "h2"%string := ProcessVars.mkConnectedHost "k2" "h2";
            "h3"%string := ProcessVars.mkConnectedHost "k3" "h3" ]}
         : ProcessVars.Registry)).
  { apply list_elem_of_In. vm_compute. tauto. }
  split; [exact Hin|]. split; [|by vm_compute].
  exact (proj1 (stale_report_is_sound _ _ _ _ _ Hin)).
Defined.
